(** * AFM image analysis: the correction pipeline

    A shallow embedding of [data_analysis.py] and of the driver script
    [AFM_image_analyser.py].

    Height values are exact rationals ([Qc], the canonical rationals of the
    Standard Library, whose equality is Leibniz equality): the development
    states the exact-arithmetic content of the numerical routines, without
    rounding, infinities or NaN.  The program computes in binary64, so the
    theorems on the numerical routines are about shapes, exceptions, the
    order of calls, which operation a routine applies and which fit it
    subtracts; a value is said to be exactly 0 only where rounding cannot
    change it (the least element after [shift_min], as [x - x = 0]).  A
    numpy 2-D array is a list of rows; [shape] reads its two dimensions.
    Python exceptions are values of [exn], and a routine that may raise
    returns a [result].

    The driver script is a program over its variables ([height_values],
    [warning_list]) that also records what it emits: the warnings given to
    [warnings.warn] and the calls to its collaborators (the results
    generator, the routines of [data_analysis], the plotting routines of
    [image]).  Reading the settings and the image is left to the caller:
    [main] takes the [--results] argument, the settings and the array that
    [image.read_tiff] returned. *)

From Stdlib Require Import QArith Qcanon Field Ascii String.
From stdpp Require Import base numbers list strings.

Local Open Scope Qc_scope.

#[local] Arguments Qcplus : simpl never.
#[local] Arguments Qcmult : simpl never.
#[local] Arguments Qcopp : simpl never.
#[local] Arguments Qcminus : simpl never.
#[local] Arguments Qcinv : simpl never.
#[local] Arguments Qcdiv : simpl never.
#[local] Arguments Q2Qc : simpl never.
#[local] Arguments Qc_of_Z : simpl never.

(** ** Exceptions and results *)

Inductive exn : Type :=
  | TypeError (msg : string)
  | ValueError
  | IndexError
  | LinAlgError.

Inductive result (A : Type) : Type :=
  | Ok (a : A)
  | Raise (e : exn).
Arguments Ok {A} a.
Arguments Raise {A} e.

(** [result] is a monad; stdpp's notation [x ← c; k] runs [c] and, unless it
    raised, continues with [k]. *)
Global Instance result_ret : MRet result := fun _ a => Ok a.
Global Instance result_bind : MBind result := fun _ _ k r =>
  match r with
  | Ok a => k a
  | Raise e => Raise e
  end.

(** ** numpy, as far as the sources use it *)

Module np.

Abbreviation vec := (list Qc).
Abbreviation ndarray := (list (list Qc)).

(** [a.shape] of a 2-D array. *)
Definition shape (a : ndarray) : nat * nat := (length a, length (hd [] a)).

Definition of_nat (i : nat) : Qc := Qc_of_Z (Z.of_nat i).

(** [np.arange(n)]. *)
Definition arange (n : nat) : vec := map of_nat (seq 0 n).

(** [np.meshgrid(x, y)] with the default ['xy'] indexing: both results have
    [len(y)] rows and [len(x)] columns. *)
Definition meshgrid (x y : vec) : ndarray * ndarray :=
  (map (fun _ => x) y, map (fun yi => map (fun _ => yi) x) y).

(** [a.ravel()], row-major. *)
Definition ravel (a : ndarray) : vec := concat a.

Definition ones_like (v : vec) : vec := map (fun _ => 1) v.

(** [np.vstack] of 1-D arrays stacks them as rows. *)
Definition vstack (rows : list vec) : ndarray := rows.

(** [a.T]. *)
Definition transpose (a : ndarray) : ndarray :=
  map (fun j => map (fun r => nth j r 0) a) (seq 0 (length (hd [] a))).

Definition qsum (v : vec) : Qc := foldr Qcplus 0 v.
Definition dot (u v : vec) : Qc := qsum (zip_with Qcmult u v).

(** [np.mean] of a 1-D array and of a whole 2-D array.  (Of an array
    without elements numpy returns NaN; here the quotient by zero is 0.  No
    statement below depends on it.) *)
Definition mean (v : vec) : Qc := qsum v / of_nat (length v).
Definition mean2 (a : ndarray) : Qc := mean (ravel a).

(** [np.min] of a 2-D array; numpy raises [ValueError] on an array without
    elements. *)
Definition Qcmin (x y : Qc) : Qc := if Qclt_le_dec y x then y else x.
Definition min (a : ndarray) : result Qc :=
  match ravel a with
  | [] => Raise ValueError
  | x :: v => Ok (foldl Qcmin x v)
  end.

(** Scalar and element-wise arithmetic. *)
Definition smul (c : Qc) (v : vec) : vec := map (Qcmult c) v.
Definition sadd (v : vec) (c : Qc) : vec := map (fun t => t + c) v.
Definition ssub (v : vec) (c : Qc) : vec := map (fun t => t - c) v.
Definition smul2 (c : Qc) (a : ndarray) : ndarray := map (smul c) a.
Definition sadd2 (a : ndarray) (c : Qc) : ndarray := map (fun r => sadd r c) a.
Definition ssub2 (a : ndarray) (c : Qc) : ndarray := map (fun r => ssub r c) a.
(** Sum of two arrays of one shape (the only use in the sources). *)
Definition add2 (a b : ndarray) : ndarray := zip_with (zip_with Qcplus) a b.

(** Broadcasting of one dimension: equal lengths, or one of them is 1. *)
Definition bdim (m n : nat) : option nat :=
  if decide (m = n) then Some m
  else if decide (m = 1%nat) then Some n
  else if decide (n = 1%nat) then Some m
  else None.

(** Index into a dimension that may be stretched from length 1. *)
Definition bidx (len i : nat) : nat := if decide (len = 1%nat) then 0%nat else i.

(** [u - v] on 1-D arrays, with broadcasting. *)
Definition sub1 (u v : vec) : result vec :=
  match bdim (length u) (length v) with
  | Some n =>
      Ok (map (fun j => nth (bidx (length u) j) u 0 - nth (bidx (length v) j) v 0)
              (seq 0 n))
  | None => Raise ValueError
  end.

Definition get2 (a : ndarray) (i j : nat) : Qc :=
  nth (bidx (shape a).2 j) (nth (bidx (shape a).1 i) a []) 0.

(** [a - b] on 2-D arrays, with broadcasting. *)
Definition sub2 (a b : ndarray) : result ndarray :=
  match bdim (shape a).1 (shape b).1, bdim (shape a).2 (shape b).2 with
  | Some r, Some c =>
      Ok (map (fun i => map (fun j => get2 a i j - get2 b i j) (seq 0 c)) (seq 0 r))
  | _, _ => Raise ValueError
  end.

(** [a[y]] for a non-negative index: [IndexError] out of range. *)
Definition getrow (a : ndarray) (y : nat) : result vec :=
  match a !! y with
  | Some r => Ok r
  | None => Raise IndexError
  end.

(** [a[y] = r]: the row is overwritten in place; the value must have the
    row's length, or length 1 (it is then stretched). *)
Definition setrow (a : ndarray) (y : nat) (r : vec) : result ndarray :=
  match a !! y with
  | None => Raise IndexError
  | Some old =>
      if decide (length r = length old) then Ok (<[y := r]> a)
      else if decide (length r = 1%nat)
           then Ok (<[y := replicate (length old) (nth 0 r 0)]> a)
           else Raise ValueError
  end.

(** *** [np.linalg.lstsq]

    Over exact arithmetic [lstsq A b] is the least-squares solution of
    minimum norm, [pinv(A) b].  It is computed on the Gram matrix
    [M = A^T A] and the vector [v = A^T b]: the Faddeev-LeVerrier recursion
    gives the coefficients [c_k] of the characteristic polynomial of [M]
    and the matrices [N_k]; with [r] the last index whose [c_r] is not
    zero (the rank of [A]), the solution is [- N_r v / c_r].  For a matrix
    of full column rank this is [M^-1 v]. *)

Definition mat_vec (m : ndarray) (v : vec) : vec := map (fun r => dot r v) m.
Definition mat_mul (m n : ndarray) : ndarray :=
  map (fun r => map (fun c => dot r c) (transpose n)) m.
Definition trace (m : ndarray) : Qc := qsum (imap (fun i r => nth i r 0) m).
Definition identity (p : nat) : ndarray :=
  map (fun i => map (fun j => if Nat.eqb i j then 1 else 0) (seq 0 p)) (seq 0 p).

Fixpoint faddeev (m n : ndarray) (k : Qc) (fuel : nat) : list (Qc * ndarray) :=
  match fuel with
  | O => []
  | S fuel' =>
      let c := - trace (mat_mul m n) / k in
      (c, n) :: faddeev m (add2 (mat_mul m n) (smul2 c (identity (length m))))
                        (k + 1) fuel'
  end.

Definition pinv_apply (m : ndarray) (v : vec) : vec :=
  let p := length m in
  match find (fun cn : Qc * ndarray => bool_decide (cn.1 <> 0))
             (reverse (faddeev m (identity p) 1 p)) with
  | Some (c, n) => map (fun t => - t / c) (mat_vec n v)
  | None => replicate p 0
  end.

Definition gram (a : ndarray) : ndarray := mat_mul (transpose a) a.

(** Only the solution is returned (the sources drop the residuals, the rank
    and the singular values).  [n] is the number of columns of [a], which
    a list of rows does not record when there is no row.  numpy raises
    [LinAlgError] when [b] has not as many entries as [a] has rows, and
    returns zeros for a matrix without rows. *)
Definition lstsq (n : nat) (a : ndarray) (b : vec) : result vec :=
  if decide (length a = length b)
  then if decide (length a = 0%nat) then Ok (replicate n 0)
       else Ok (pinv_apply (gram a) (mat_vec (transpose a) b))
  else Raise LinAlgError.

End np.

(** ** data_analysis.py *)

Module data_analysis.
Import np.

(** [for y in ys: hv = body(y, hv)], stopping at the first exception. *)
Fixpoint for_rows (ys : list nat) (body : nat -> ndarray -> result ndarray)
    (hv : ndarray) : result ndarray :=
  match ys with
  | [] => Ok hv
  | y :: ys' => hv' ← body y hv; for_rows ys' body hv'
  end.

(** Lines 25-35.  The last line subtracts [a*X + b*Y + c]; the two operands
    of that subtraction have the shapes [(nx, ny)] and [(ny, nx)]. *)
Definition common_plane_subtraction (height_values : ndarray) : result ndarray :=
  let '(nx, ny) := shape height_values in
  let x_ax := arange nx in
  let y_ax := arange ny in
  let '(X, Y) := meshgrid x_ax y_ax in
  let x_flat := ravel X in
  let y_flat := ravel Y in
  let z_flat := ravel height_values in
  let A := transpose (vstack [x_flat; y_flat; ones_like x_flat]) in
  coeffs ← lstsq 3 A z_flat;
  match coeffs with
  | [a; b; c] => sub2 height_values (sadd2 (add2 (smul2 a X) (smul2 b Y)) c)
  | _ => Raise ValueError
  end.

(** Lines 40-47.  The loop variable runs over [range(ny)] and indexes the
    rows; the matrix built on line 43 is not used.  The array is updated in
    place and returned. *)
Definition mean_drift_subtraction (height_values : ndarray) : result ndarray :=
  let '(nx, ny) := shape height_values in
  for_rows (seq 0 ny)
    (fun y hv =>
       row ← getrow hv y;
       let mean_height := mean row in
       setrow hv y (ssub row mean_height))
    height_values.

(** Lines 52-60.  The design matrix has [nx] rows, a row of the array has
    [ny] samples.  The array is updated in place and returned. *)
Definition line_drift_subtraction (height_values : ndarray) : result ndarray :=
  let '(nx, ny) := shape height_values in
  let x_ax := arange nx in
  let A := transpose (vstack [x_ax; ones_like x_ax]) in
  for_rows (seq 0 ny)
    (fun y hv =>
       row ← getrow hv y;
       coeffs ← lstsq 2 A row;
       match coeffs with
       | [m; q] =>
           row' ← sub1 row (sadd (smul m x_ax) q);
           setrow hv y row'
       | _ => Raise ValueError
       end)
    height_values.

(** Lines 80-81. *)
Definition shift_min (height_values : ndarray) : result ndarray :=
  minimum_height ← min height_values;
  Ok (ssub2 height_values minimum_height).

(** Lines 101-102. *)
Definition shift_mean (height_values : ndarray) : result ndarray :=
  let mean_height := mean2 height_values in
  Ok (ssub2 height_values mean_height).

End data_analysis.

(** ** AFM_image_analyser.py *)

(** [str.lower()], on ASCII letters; other characters are left as they
    are.  The words the script compares with are ASCII. *)
Definition lower_ascii (c : ascii) : ascii :=
  let n := nat_of_ascii c in
  if (65 <=? n)%nat && (n <=? 90)%nat then ascii_of_nat (n + 32) else c.

Fixpoint lower (s : string) : string :=
  match s with
  | EmptyString => EmptyString
  | String c s' => String (lower_ascii c) (lower s')
  end.

(** The fields of [settings.json] that the script reads after loading the
    image: [settings["data_analysis"][...]], the two output file names and
    the colour map. *)
Module settings.
Record t : Type := {
  common_plane_subtraction : string;
  line_drift_correction : string;
  data_shift : string;
  output_2D : string;
  output_3D : string;
  color_map : string
}.
End settings.

Module AFM_image_analyser.
Import np.

(** What the script does to its collaborators, in order: the results
    generator, the routines of [data_analysis] (with the array they are
    given) and the two plotting routines of [image]. *)
Inductive event : Type :=
  | results_setup (path : string)
  | results_close
  | call_common_plane_subtraction (hv : ndarray)
  | call_line_drift_subtraction (hv : ndarray)
  | call_mean_drift_subtraction (hv : ndarray)
  | call_shift_min (hv : ndarray)
  | call_shift_mean (hv : ndarray)
  | plot_2d_image (file : string) (hv : ndarray) (cmap : string)
  | plot_3d_image (file : string) (hv : ndarray) (cmap : string).

Inductive category : Type := UserWarning.

(** The script's variables and what it has emitted so far. *)
Record state : Type := {
  height_values : ndarray;
  warning_list : list string;
  warned : list (category * string);   (* [warnings.warn], the live channel *)
  trace : list event
}.

(** A statement of the script: it changes the state and may raise. *)
Definition prog (A : Type) : Type := state -> state * result A.

Global Instance prog_ret : MRet prog := fun _ a st => (st, Ok a).
Global Instance prog_bind : MBind prog := fun _ _ k c st =>
  match c st with
  | (st', Ok a) => k a st'
  | (st', Raise e) => (st', Raise e)
  end.

Definition emit (e : event) : prog unit := fun st =>
  ({| height_values := height_values st; warning_list := warning_list st;
      warned := warned st; trace := trace st ++ [e] |}, Ok tt).

Definition raise {A} (e : exn) : prog A := fun st => (st, Raise e).

Definition warn (msg : string) (c : category) : prog unit := fun st =>
  ({| height_values := height_values st; warning_list := warning_list st;
      warned := warned st ++ [(c, msg)]; trace := trace st |}, Ok tt).

Definition warning_list_append (msg : string) : prog unit := fun st =>
  ({| height_values := height_values st; warning_list := warning_list st ++ [msg];
      warned := warned st; trace := trace st |}, Ok tt).

(** [height_values = data_analysis.f(height_values)].  When [f] raises the
    run is over; the state then still holds the array as it was given to
    [f] (a routine that works in place may have rewritten some of its rows
    by then, which nothing reads any more). *)
Definition apply (ev : ndarray -> event) (f : ndarray -> result ndarray) : prog unit :=
  fun st =>
    let st1 := {| height_values := height_values st; warning_list := warning_list st;
                  warned := warned st; trace := trace st ++ [ev (height_values st)] |} in
    match f (height_values st) with
    | Ok hv => ({| height_values := hv; warning_list := warning_list st1;
                   warned := warned st1; trace := trace st1 |}, Ok tt)
    | Raise e => (st1, Raise e)
    end.

Definition plane := apply call_common_plane_subtraction data_analysis.common_plane_subtraction.
Definition line := apply call_line_drift_subtraction data_analysis.line_drift_subtraction.
Definition mean_drift := apply call_mean_drift_subtraction data_analysis.mean_drift_subtraction.
Definition shift_min := apply call_shift_min data_analysis.shift_min.
Definition shift_mean := apply call_shift_mean data_analysis.shift_mean.

Definition msg_common_plane_subtraction : string :=
  "Variable inserted for 'common_plane_subtraction' in settings.json is not valid. Please insert 'yes' or 'no' (variable is not case-sensitive).".
Definition msg_line_drift_correction : string :=
  "Variable inserted for 'linear_drift_subtraction' in settings.json is not valid. Please insert 'yes' or 'no' (variable is not case-sensitive).".
Definition msg_data_shift : string :=
  "Variable inserted for 'data_shift' in settings.json is not valid. Please insert 'minimum' or 'mean' (variable is not case-sensitive).".
Definition msg_warning : string :=
  "Linear drift correction was requested without plane subtraction. Common plane subtraction has been applied automatically to ensure accuracy.".
Definition msg_warning_list : string :=
  "UserWarning: Linear drift correction was requested without plane subtraction. Common plane subtraction has been applied automatically to ensure accuracy.".

(** Lines 24-29. *)
Definition plane_stage (s : settings.t) : prog unit :=
  if String.eqb (lower (settings.common_plane_subtraction s)) "yes" then plane
  else if String.eqb (lower (settings.common_plane_subtraction s)) "no" then mret tt
  else raise (TypeError msg_common_plane_subtraction).

(** Lines 35-38 and 43-46: the same four statements in both branches. *)
Definition fallback : prog unit :=
  plane ;; line ;;
  warn msg_warning UserWarning ;;
  warning_list_append msg_warning_list.

(** Lines 31-50. *)
Definition drift_stage (s : settings.t) : prog unit :=
  if String.eqb (lower (settings.line_drift_correction s)) "linear" then
    if String.eqb (lower (settings.common_plane_subtraction s)) "yes" then line
    else fallback
  else if String.eqb (lower (settings.line_drift_correction s)) "mean" then
    if String.eqb (lower (settings.common_plane_subtraction s)) "yes" then mean_drift
    else fallback
  else if String.eqb (lower (settings.line_drift_correction s)) "no" then mret tt
  else raise (TypeError msg_line_drift_correction).

(** Lines 52-57. *)
Definition shift_stage (s : settings.t) : prog unit :=
  if String.eqb (lower (settings.data_shift s)) "minimum" then shift_min
  else if String.eqb (lower (settings.data_shift s)) "mean" then shift_mean
  else raise (TypeError msg_data_shift).

(** Lines 59-60. *)
Definition render (s : settings.t) : prog unit := fun st =>
  (emit (plot_2d_image (settings.output_2D s) (height_values st) (settings.color_map s)) ;;
   emit (plot_3d_image (settings.output_3D s) (height_values st) (settings.color_map s))) st.

(** Lines 14-16: an absent or empty [--results] argument is falsy. *)
Definition results_stage (args_results : option string) : prog unit :=
  match args_results with
  | Some (String c p) => emit (results_setup (String c p))
  | _ => mret tt
  end.

Definition script (args_results : option string) (s : settings.t) : prog unit :=
  results_stage args_results ;;
  plane_stage s ;;
  drift_stage s ;;
  shift_stage s ;;
  render s ;;
  emit results_close.

(** The run on the image that [image.read_tiff] returned. *)
Definition main (args_results : option string) (s : settings.t) (tiff : ndarray)
  : state * result unit :=
  script args_results s
    {| height_values := tiff; warning_list := []; warned := []; trace := [] |}.

End AFM_image_analyser.

(** ** Vocabulary of the statements *)

(** A grid with [r] rows and [c] columns; a square one. *)
Definition has_shape (r c : nat) (a : np.ndarray) : Prop :=
  length a = r /\ Forall (fun row => length row = c) a.

Definition square (n : nat) (a : np.ndarray) : Prop := has_shape n n a.

(** The least-squares line [z = m x + q] through a row, over the indices
    [x = 0 .. len(row)-1]: the fit that [line_drift_subtraction] computes for
    each row, as [[m; q]]. *)
Definition best_fit_line (row : np.vec) : result np.vec :=
  np.lstsq 2
    (np.transpose (np.vstack [np.arange (length row);
                              np.ones_like (np.arange (length row))]))
    row.

(** The least-squares plane [z = a x + b y + c] through a grid, over the
    index coordinates that [common_plane_subtraction] builds, as
    [[a; b; c]]. *)
Definition best_fit_plane (height_values : np.ndarray) : result np.vec :=
  let '(nx, ny) := np.shape height_values in
  let '(X, Y) := np.meshgrid (np.arange nx) (np.arange ny) in
  np.lstsq 3
    (np.transpose (np.vstack [np.ravel X; np.ravel Y; np.ones_like (np.ravel X)]))
    (np.ravel height_values).

(** What the docstring of [common_plane_subtraction] and the specification
    describe: the same fit, but only the tilt [a X + b Y] is subtracted. *)
Definition tilt_only_subtraction (height_values : np.ndarray) : result np.ndarray :=
  let '(nx, ny) := np.shape height_values in
  let '(X, Y) := np.meshgrid (np.arange nx) (np.arange ny) in
  coeffs ← best_fit_plane height_values;
  match coeffs with
  | [a; b; c] => np.sub2 height_values (np.add2 (np.smul2 a X) (np.smul2 b Y))
  | _ => Raise ValueError
  end.

(** The plane [a X + b Y + c] sampled on the coordinate matrices of an
    [n x n] grid. *)
Definition plane_values (n : nat) (a b c : Qc) : np.ndarray :=
  let '(X, Y) := np.meshgrid (np.arange n) (np.arange n) in
  np.sadd2 (np.add2 (np.smul2 a X) (np.smul2 b Y)) c.


(** What [line_drift_subtraction] leaves of a row: the row minus its fitted
    line. *)
Definition line_residual (row : np.vec) : np.vec :=
  match best_fit_line row with
  | Ok [m; q] => zip_with Qcminus row (np.sadd (np.smul m (np.arange (length row))) q)
  | _ => row
  end.

(** What [mean_drift_subtraction] leaves of a row. *)
Definition mean_residual (row : np.vec) : np.vec := np.ssub row (np.mean row).

(** Determinants of 2x2 and 3x3 matrices, row by row. *)
Definition det2 (a b c d : Qc) : Qc := a * d - b * c.

Definition det3 (a b c d e f g h i : Qc) : Qc :=
  a * (e * i - f * h) - b * (d * i - f * g) + c * (d * h - e * g).

(** *** Vocabulary of the script *)

(** The calls into [data_analysis], in the order the script made them. *)
Definition is_analysis_call (ev : AFM_image_analyser.event) : bool :=
  match ev with
  | AFM_image_analyser.call_common_plane_subtraction _
  | AFM_image_analyser.call_line_drift_subtraction _
  | AFM_image_analyser.call_mean_drift_subtraction _
  | AFM_image_analyser.call_shift_min _
  | AFM_image_analyser.call_shift_mean _ => true
  | _ => false
  end.

Definition analysis_calls (st : AFM_image_analyser.state) : list AFM_image_analyser.event :=
  filter (fun ev => is_analysis_call ev = true) (AFM_image_analyser.trace st).

(** The events by which something is written: the two plots and the closing
    of the results file. *)
Definition is_output (ev : AFM_image_analyser.event) : bool :=
  match ev with
  | AFM_image_analyser.plot_2d_image _ _ _
  | AFM_image_analyser.plot_3d_image _ _ _
  | AFM_image_analyser.results_close => true
  | _ => false
  end.

(** The enumerated sets of the three settings, compared as the script
    compares them. *)
Definition valid_common_plane_subtraction (s : settings.t) : Prop :=
  lower (settings.common_plane_subtraction s) = "yes"
  \/ lower (settings.common_plane_subtraction s) = "no".
Definition valid_line_drift_correction (s : settings.t) : Prop :=
  lower (settings.line_drift_correction s) = "linear"
  \/ lower (settings.line_drift_correction s) = "mean"
  \/ lower (settings.line_drift_correction s) = "no".
Definition valid_data_shift (s : settings.t) : Prop :=
  lower (settings.data_shift s) = "minimum"
  \/ lower (settings.data_shift s) = "mean".
Definition valid (s : settings.t) : Prop :=
  valid_common_plane_subtraction s /\ valid_line_drift_correction s /\ valid_data_shift s.

(** What the vertical-shift stage calls on [hv]. *)
Definition shift_calls (s : settings.t) (hv : np.ndarray)
  : list AFM_image_analyser.event :=
  if String.eqb (lower (settings.data_shift s)) "minimum"
  then [AFM_image_analyser.call_shift_min hv]
  else if String.eqb (lower (settings.data_shift s)) "mean"
       then [AFM_image_analyser.call_shift_mean hv]
       else [].

(** The exception of the configuration checks. *)
Definition is_TypeError (e : exn) : Prop :=
  match e with TypeError _ => True | _ => False end.

(** Settings with the three fields of [data_analysis] given and the rest
    fixed. *)
Definition example_settings (plane drift shift : string) : settings.t :=
  {| settings.common_plane_subtraction := plane;
     settings.line_drift_correction := drift;
     settings.data_shift := shift;
     settings.output_2D := "image_2D.png";
     settings.output_3D := "image_3D.png";
     settings.color_map := "hot" |}.

(** The settings with the three fields of [data_analysis] in lowercase. *)
Definition lowercase_settings (s : settings.t) : settings.t :=
  {| settings.common_plane_subtraction := lower (settings.common_plane_subtraction s);
     settings.line_drift_correction := lower (settings.line_drift_correction s);
     settings.data_shift := lower (settings.data_shift s);
     settings.output_2D := settings.output_2D s;
     settings.output_3D := settings.output_3D s;
     settings.color_map := settings.color_map s |}.

(** Calls of [common_plane_subtraction] and of [mean_drift_subtraction]
    among the events. *)
Definition is_plane_call (ev : AFM_image_analyser.event) : bool :=
  match ev with
  | AFM_image_analyser.call_common_plane_subtraction _ => true
  | _ => false
  end.

Definition is_mean_drift_call (ev : AFM_image_analyser.event) : bool :=
  match ev with
  | AFM_image_analyser.call_mean_drift_subtraction _ => true
  | _ => false
  end.

(** ** Concrete arrays and evaluation *)

Global Instance exn_eq_dec : EqDecision exn.
Proof. solve_decision. Defined.
Global Instance result_eq_dec {A} `{EqDecision A} : EqDecision (result A).
Proof. solve_decision. Defined.

(** Arrays written with integer or with rational entries. *)
Definition of_Z (g : list (list Z)) : np.ndarray := map (map Qc_of_Z) g.
Definition of_Q (g : list (list Q)) : np.ndarray := map (map Q2Qc) g.

(** Equations between closed terms are decided by evaluation. *)
Ltac by_eval :=
  match goal with
  | |- ?P => apply (bool_decide_eq_true_1 P); vm_compute; reflexivity
  end.

(** * Arithmetic of sums and scalar products *)

Section sums.
Import np.

Lemma of_nat_0 : of_nat 0 = 0.
Proof. apply Z2Qc_inj_0. Qed.

Lemma of_nat_S n : of_nat (S n) = of_nat n + 1.
Proof.
  unfold of_nat. rewrite Nat2Z.inj_succ, <- Z.add_1_r, Z2Qc_inj_add.
  by rewrite Z2Qc_inj_1.
Qed.

Lemma of_nat_neq_0 n : n <> 0%nat -> of_nat n <> 0.
Proof.
  intros Hn H. unfold of_nat in H. rewrite <- Z2Qc_inj_0 in H.
  apply Z2Qc_inj in H. lia.
Qed.

Lemma qsum_nil : qsum [] = 0.
Proof. reflexivity. Qed.

Lemma qsum_cons x v : qsum (x :: v) = x + qsum v.
Proof. reflexivity. Qed.

Lemma qsum_app u v : qsum (u ++ v) = qsum u + qsum v.
Proof.
  induction u as [|x u IH]; cbn [app].
  - rewrite qsum_nil. ring.
  - rewrite !qsum_cons, IH. ring.
Qed.

Lemma qsum_const {A} (l : list A) c : qsum (map (fun _ => c) l) = of_nat (length l) * c.
Proof.
  induction l as [|x l IH]; cbn [map length].
  - rewrite qsum_nil, of_nat_0. ring.
  - rewrite qsum_cons, IH, of_nat_S. ring.
Qed.

Lemma dot_nil_l v : dot [] v = 0.
Proof. reflexivity. Qed.

Lemma dot_cons x u y v : dot (x :: u) (y :: v) = x * y + dot u v.
Proof. reflexivity. Qed.

Lemma dot_comm u v : dot u v = dot v u.
Proof.
  revert v. induction u as [|x u IH]; intros [|y v]; try reflexivity.
  rewrite !dot_cons, IH. ring.
Qed.

Lemma dot_app u u' v v' :
  length u = length v -> dot (u ++ u') (v ++ v') = dot u v + dot u' v'.
Proof.
  revert v. induction u as [|x u IH]; intros [|y v] Hl; try discriminate.
  - cbn [app]. rewrite dot_nil_l. ring.
  - cbn [app]. rewrite !dot_cons, IH by (cbn in Hl; lia). ring.
Qed.

Lemma dot_nil_r u : dot u [] = 0.
Proof. by destruct u. Qed.

Lemma dot_smul_r u c v : dot u (smul c v) = c * dot u v.
Proof.
  revert v. induction u as [|x u IH]; intros [|y v]; cbn [smul map];
    rewrite ?dot_nil_l, ?dot_nil_r; try ring.
  fold (smul c v). rewrite !dot_cons, IH. ring.
Qed.

Lemma dot_ones_r {A} u (l : list A) :
  length u = length l -> dot u (map (fun _ => 1) l) = qsum u.
Proof.
  revert l. induction u as [|x u IH]; intros [|y l] Hl; try discriminate.
  - reflexivity.
  - cbn [map]. rewrite dot_cons, qsum_cons, IH by (cbn in Hl; lia). ring.
Qed.

Lemma dot_sadd_r u v c :
  length u = length v -> dot u (sadd v c) = dot u v + c * qsum u.
Proof.
  revert v. induction u as [|x u IH]; intros [|y v] Hl; try discriminate.
  - cbn [sadd map]. rewrite dot_nil_l, qsum_nil. ring.
  - cbn [sadd map]. fold (sadd v c).
    rewrite !dot_cons, qsum_cons, IH by (cbn in Hl; lia). ring.
Qed.

Lemma dot_sub_r u a b :
  length a = length b ->
  dot u (zip_with Qcminus a b) = dot u a - dot u b.
Proof.
  revert a b. induction u as [|x u IH]; intros [|y a] [|y' b] Hl; try discriminate;
    cbn [zip_with]; rewrite ?dot_nil_l, ?dot_nil_r; try ring.
  rewrite !dot_cons, IH by (cbn in Hl; lia). ring.
Qed.

Lemma dot_add_r u a b :
  length a = length b ->
  dot u (zip_with Qcplus a b) = dot u a + dot u b.
Proof.
  revert a b. induction u as [|x u IH]; intros [|y a] [|y' b] Hl; try discriminate;
    cbn [zip_with]; rewrite ?dot_nil_l, ?dot_nil_r; try ring.
  rewrite !dot_cons, IH by (cbn in Hl; lia). ring.
Qed.

Lemma arange_S n : arange (S n) = arange n ++ [of_nat n].
Proof. unfold arange. by rewrite seq_S, map_app. Qed.

Lemma length_arange n : length (arange n) = n.
Proof. unfold arange. by rewrite length_map, length_seq. Qed.

(** The two sums over [0 .. n-1] that the fits need, in closed form. *)
Lemma qsum_arange n :
  (1 + 1) * qsum (arange n) = of_nat n * (of_nat n - 1).
Proof.
  induction n as [|n IH].
  - change (arange 0) with (@nil Qc). rewrite qsum_nil, of_nat_0. ring.
  - rewrite arange_S, qsum_app, qsum_cons, qsum_nil, of_nat_S.
    transitivity ((1 + 1) * qsum (arange n) + (1 + 1) * of_nat n); [ring|].
    rewrite IH. ring.
Qed.

Lemma dot_arange n :
  (1 + 1) * (1 + 1 + 1) * dot (arange n) (arange n)
  = (of_nat n - 1) * of_nat n * ((1 + 1) * of_nat n - 1).
Proof.
  induction n as [|n IH].
  - change (arange 0) with (@nil Qc). rewrite dot_nil_l, of_nat_0. ring.
  - rewrite arange_S, dot_app, dot_cons, dot_nil_l, of_nat_S by reflexivity.
    transitivity ((1 + 1) * (1 + 1 + 1) * dot (arange n) (arange n)
                  + (1 + 1) * (1 + 1 + 1) * (of_nat n * of_nat n)); [ring|].
    rewrite IH. ring.
Qed.

End sums.

(** * The least-squares solver on the designs of the sources *)

Section solver.
Import np.

Ltac lin_unfold :=
  cbv [mat_mul mat_vec add2 smul2 smul identity trace transpose
       dot qsum foldr zip_with imap map seq length hd nth Nat.eqb
       fst snd compose Nat.add replicate app].

Ltac qfield := field; repeat split; try assumption; try discriminate.

(** Equality of two lists (of lists) of the same visible shape, entry by
    entry. *)
Ltac entrywise :=
  repeat match goal with
         | |- _ :: _ = _ :: _ => apply (f_equal2 cons)
         | |- [] = [] => reflexivity
         end.

Lemma faddeev_step m n k fuel c n' :
  - trace (mat_mul m n) / k = c ->
  add2 (mat_mul m n) (smul2 c (identity (length m))) = n' ->
  faddeev m n k (S fuel) = (c, n) :: faddeev m n' (k + 1) fuel.
Proof. intros <- <-. reflexivity. Qed.

Lemma two_neq_0 : (1 + 1 : Qc) <> 0.
Proof. discriminate. Qed.

Lemma three_neq_0 : (1 + 1 + 1 : Qc) <> 0.
Proof. discriminate. Qed.

(** On a regular 2x2 system the solver is Cramer's rule. *)
Lemma pinv_apply_2 a b c d v1 v2 :
  det2 a b c d <> 0 ->
  pinv_apply [[a; b]; [c; d]] [v1; v2] =
    [ (d * v1 - b * v2) / det2 a b c d; (a * v2 - c * v1) / det2 a b c d ].
Proof.
  intros Hd. unfold pinv_apply. cbn [length].
  rewrite (faddeev_step _ _ _ _ (- (a + d)) [[- d; b]; [c; - a]]);
    [ | lin_unfold; qfield | lin_unfold; entrywise; qfield ].
  rewrite (faddeev_step _ _ _ _ (det2 a b c d) [[0; 0]; [0; 0]]);
    [ | unfold det2; lin_unfold; qfield
      | unfold det2; lin_unfold; entrywise; qfield ].
  cbn [faddeev reverse rev_append find fst].
  rewrite bool_decide_eq_true_2 by assumption.
  lin_unfold. entrywise; qfield.
Qed.

(** The same on a regular 3x3 system. *)
Lemma pinv_apply_3 a b c d e f g h i v1 v2 v3 :
  det3 a b c d e f g h i <> 0 ->
  pinv_apply [[a; b; c]; [d; e; f]; [g; h; i]] [v1; v2; v3] =
    [ ((e * i - f * h) * v1 + (c * h - b * i) * v2 + (b * f - c * e) * v3)
        / det3 a b c d e f g h i;
      ((f * g - d * i) * v1 + (a * i - c * g) * v2 + (c * d - a * f) * v3)
        / det3 a b c d e f g h i;
      ((d * h - e * g) * v1 + (b * g - a * h) * v2 + (a * e - b * d) * v3)
        / det3 a b c d e f g h i ].
Proof.
  intros Hd. unfold pinv_apply. cbn [length].
  rewrite (faddeev_step _ _ _ _ (- (a + e + i))
             [[- (e + i); b; c]; [d; - (a + i); f]; [g; h; - (a + e)]]);
    [ | lin_unfold; qfield | lin_unfold; entrywise; qfield ].
  rewrite (faddeev_step _ _ _ _ (a * e - b * d + (a * i - c * g) + (e * i - f * h))
             [[e * i - f * h; c * h - b * i; b * f - c * e];
              [f * g - d * i; a * i - c * g; c * d - a * f];
              [d * h - e * g; b * g - a * h; a * e - b * d]]);
    [ | lin_unfold; qfield | lin_unfold; entrywise; qfield ].
  rewrite (faddeev_step _ _ _ _ (- det3 a b c d e f g h i)
             [[0; 0; 0]; [0; 0; 0]; [0; 0; 0]]);
    [ | unfold det3; lin_unfold; qfield
      | unfold det3; lin_unfold; entrywise; qfield ].
  cbn [faddeev reverse rev_append find fst].
  rewrite bool_decide_eq_true_2
    by (intros H0; apply Hd; rewrite <- (Qcopp_involutive (det3 a b c d e f g h i)), H0;
        reflexivity).
  lin_unfold. entrywise; qfield.
  all: intros H0; apply Hd; rewrite <- (Qcopp_involutive (det3 a b c d e f g h i)), H0;
    reflexivity.
Qed.

(** Two matrices of rank one, met on grids with a single row and column:
    there the solver is the identity. *)
Lemma pinv_apply_2_unit v1 v2 :
  pinv_apply [[0; 0]; [0; 1]] [v1; v2] = [v1; v2].
Proof.
  unfold pinv_apply. cbn [length].
  rewrite (faddeev_step _ _ _ _ (- (1)) [[- (1); 0]; [0; 0]]);
    [ | lin_unfold; qfield | lin_unfold; entrywise; qfield ].
  rewrite (faddeev_step _ _ _ _ 0 [[0; 0]; [0; 0]]);
    [ | lin_unfold; qfield | lin_unfold; entrywise; qfield ].
  cbn [faddeev reverse rev_append find fst].
  rewrite bool_decide_eq_false_2 by (intros H; by apply H).
  rewrite bool_decide_eq_true_2 by discriminate.
  lin_unfold. entrywise; qfield.
Qed.

Lemma pinv_apply_3_unit v1 v2 v3 :
  pinv_apply [[0; 0; 0]; [0; 0; 0]; [0; 0; 1]] [v1; v2; v3] = [v1; v2; v3].
Proof.
  unfold pinv_apply. cbn [length].
  rewrite (faddeev_step _ _ _ _ (- (1)) [[- (1); 0; 0]; [0; - (1); 0]; [0; 0; 0]]);
    [ | lin_unfold; qfield | lin_unfold; entrywise; qfield ].
  rewrite (faddeev_step _ _ _ _ 0 [[0; 0; 0]; [0; 0; 0]; [0; 0; 0]]);
    [ | lin_unfold; qfield | lin_unfold; entrywise; qfield ].
  rewrite (faddeev_step _ _ _ _ 0 [[0; 0; 0]; [0; 0; 0]; [0; 0; 0]]);
    [ | lin_unfold; qfield | lin_unfold; entrywise; qfield ].
  cbn [faddeev reverse rev_append find fst].
  rewrite !bool_decide_eq_false_2 by (intros H; by apply H).
  rewrite bool_decide_eq_true_2 by discriminate.
  lin_unfold. entrywise; qfield.
Qed.

(** On a regular 3x3 system the solution satisfies the three equations,
    and it is zero when the right-hand side is. *)
Lemma pinv_apply_3_solves a b c d e f g h i v1 v2 v3 :
  det3 a b c d e f g h i <> 0 ->
  exists x1 x2 x3,
    pinv_apply [[a; b; c]; [d; e; f]; [g; h; i]] [v1; v2; v3] = [x1; x2; x3]
    /\ a * x1 + b * x2 + c * x3 = v1
    /\ d * x1 + e * x2 + f * x3 = v2
    /\ g * x1 + h * x2 + i * x3 = v3.
Proof.
  intros Hd. rewrite pinv_apply_3 by done.
  eexists _, _, _. split; [reflexivity|].
  unfold det3 in *. repeat split; field; done.
Qed.

Lemma pinv_apply_3_zero a b c d e f g h i :
  det3 a b c d e f g h i <> 0 ->
  pinv_apply [[a; b; c]; [d; e; f]; [g; h; i]] [0; 0; 0] = [0; 0; 0].
Proof.
  intros Hd. rewrite pinv_apply_3 by done. entrywise; field; done.
Qed.

(** *** Design matrices built by [vstack(...).T] *)

Lemma map_nth_seq (u : vec) : map (fun j => nth j u 0) (seq 0 (length u)) = u.
Proof.
  apply list_eq. intros i. rewrite list_lookup_fmap.
  destruct (decide (i < length u)%nat) as [Hi|Hi].
  - rewrite lookup_seq_lt by done. cbn.
    destruct (lookup_lt_is_Some_2 u i Hi) as [x Hx]. rewrite Hx.
    f_equal. by apply nth_lookup_Some with (d := 0) in Hx.
  - rewrite lookup_seq_ge by lia. cbn. symmetry. apply lookup_ge_None. lia.
Qed.

Lemma transpose_2 (u v : vec) :
  transpose (vstack [u; v]) = map (fun j => [nth j u 0; nth j v 0]) (seq 0 (length u)).
Proof. reflexivity. Qed.

Lemma transpose_3 (u v w : vec) :
  transpose (vstack [u; v; w]) =
    map (fun j => [nth j u 0; nth j v 0; nth j w 0]) (seq 0 (length u)).
Proof. reflexivity. Qed.

Lemma length_transpose_vstack (u : vec) rows :
  length (transpose (vstack (u :: rows))) = length u.
Proof. unfold transpose, vstack. cbn [hd]. by rewrite length_map, length_seq. Qed.

Lemma map_nth_seq_length (u : vec) n :
  length u = n -> map (fun j => nth j u 0) (seq 0 n) = u.
Proof. intros <-. apply map_nth_seq. Qed.

Lemma hd_map_seq {A} (f : nat -> A) d n :
  n <> 0%nat -> hd d (map f (seq 0 n)) = f 0%nat.
Proof. by destruct n. Qed.

Lemma transpose_transpose_2 (u v : vec) :
  length u <> 0%nat -> length v = length u ->
  transpose (transpose (vstack [u; v])) = [u; v].
Proof.
  intros Hn Hv. rewrite transpose_2.
  unfold transpose. rewrite hd_map_seq by done. cbn [seq map hd length].
  rewrite !map_map. cbn [nth].
  by rewrite (map_nth_seq_length u), (map_nth_seq_length v).
Qed.

Lemma transpose_transpose_3 (u v w : vec) :
  length u <> 0%nat -> length v = length u -> length w = length u ->
  transpose (transpose (vstack [u; v; w])) = [u; v; w].
Proof.
  intros Hn Hv Hw. rewrite transpose_3.
  unfold transpose. rewrite hd_map_seq by done. cbn [seq map hd length].
  rewrite !map_map. cbn [nth].
  by rewrite (map_nth_seq_length u), (map_nth_seq_length v), (map_nth_seq_length w).
Qed.

(** [lstsq] on a design with two columns [u], [v]. *)
Lemma lstsq_2 (u v b : vec) :
  length u <> 0%nat -> length v = length u -> length b = length u ->
  lstsq 2 (transpose (vstack [u; v])) b =
    Ok (pinv_apply [[dot u u; dot u v]; [dot v u; dot v v]] [dot u b; dot v b]).
Proof.
  intros Hn Hv Hb. unfold lstsq, gram.
  rewrite length_transpose_vstack.
  rewrite decide_True by done. rewrite decide_False by done.
  unfold mat_mul. rewrite !transpose_transpose_2 by done. reflexivity.
Qed.

(** [lstsq] on a design with three columns [u], [v], [w]. *)
Lemma lstsq_3 (u v w b : vec) :
  length u <> 0%nat -> length v = length u -> length w = length u ->
  length b = length u ->
  lstsq 3 (transpose (vstack [u; v; w])) b =
    Ok (pinv_apply [[dot u u; dot u v; dot u w];
                    [dot v u; dot v v; dot v w];
                    [dot w u; dot w v; dot w w]]
                   [dot u b; dot v b; dot w b]).
Proof.
  intros Hn Hv Hw Hb. unfold lstsq, gram.
  rewrite length_transpose_vstack.
  rewrite decide_True by done. rewrite decide_False by done.
  unfold mat_mul. rewrite !transpose_transpose_3 by done. reflexivity.
Qed.

(** *** The row fit of [line_drift_subtraction] *)

Lemma of_nat_neq_1 n : n <> 1%nat -> of_nat n - 1 <> 0.
Proof.
  intros Hn H. apply Hn.
  assert (of_nat n = of_nat 1) as H1.
  { rewrite (of_nat_S 0), of_nat_0.
    transitivity (of_nat n - 1 + 1); [ring | rewrite H; ring]. }
  unfold of_nat in H1. apply Z2Qc_inj in H1. lia.
Qed.

Lemma of_nat_plus_1_neq_0 n : of_nat n + 1 <> 0.
Proof. rewrite <- of_nat_S. by apply of_nat_neq_0. Qed.

(** The Gram determinant of the design [[x, 1]] over [x = 0 .. n-1] is
    [n^2 (n^2 - 1) / 12]. *)
Lemma det_line_closed n :
  (1 + 1) * (1 + 1) * (1 + 1 + 1)
    * det2 (dot (arange n) (arange n)) (qsum (arange n)) (qsum (arange n)) (of_nat n)
  = of_nat n * of_nat n * (of_nat n - 1) * (of_nat n + 1).
Proof.
  unfold det2.
  transitivity
    ((1 + 1) * of_nat n * ((1 + 1) * (1 + 1 + 1) * dot (arange n) (arange n))
     - (1 + 1 + 1) * ((1 + 1) * qsum (arange n)) * ((1 + 1) * qsum (arange n)));
    [ring|].
  rewrite dot_arange, qsum_arange. ring.
Qed.

Lemma det_line_neq_0 n :
  (2 <= n)%nat ->
  det2 (dot (arange n) (arange n)) (qsum (arange n)) (qsum (arange n)) (of_nat n) <> 0.
Proof.
  intros Hn Hd. pose proof (det_line_closed n) as H. rewrite Hd in H.
  rewrite Qcmult_0_r in H. symmetry in H.
  apply Qcmult_integral in H as [H|H]; [|by apply (of_nat_plus_1_neq_0 n)].
  apply Qcmult_integral in H as [H|H]; [|apply (of_nat_neq_1 n); [lia|done]].
  apply Qcmult_integral in H as [H|H]; apply (of_nat_neq_0 n); (lia || done).
Qed.

Lemma best_fit_line_unfold (row : vec) :
  length row <> 0%nat ->
  best_fit_line row =
    Ok (pinv_apply [[dot (arange (length row)) (arange (length row));
                     qsum (arange (length row))];
                    [qsum (arange (length row)); of_nat (length row)]]
                   [dot (arange (length row)) row; qsum row]).
Proof.
  intros Hn. unfold best_fit_line.
  rewrite lstsq_2 by (unfold ones_like; rewrite ?length_map, ?length_arange; done).
  unfold ones_like.
  rewrite (dot_ones_r (arange (length row)) (arange (length row))) by done.
  rewrite (dot_comm (map _ _) (arange _)).
  rewrite (dot_ones_r (arange (length row)) (arange (length row))) by done.
  rewrite (dot_comm (map _ _) row).
  rewrite (dot_ones_r row (arange (length row))) by (by rewrite length_arange).
  rewrite (dot_ones_r (map _ _) (arange (length row))) by (by rewrite length_map).
  rewrite qsum_const, length_arange.
  by rewrite Qcmult_1_r.
Qed.

(** The fitted line satisfies the normal equations. *)
Lemma best_fit_line_normal (row : vec) :
  length row <> 0%nat ->
  exists m q,
    best_fit_line row = Ok [m; q]
    /\ dot (arange (length row)) (arange (length row)) * m
       + qsum (arange (length row)) * q = dot (arange (length row)) row
    /\ qsum (arange (length row)) * m + of_nat (length row) * q = qsum row.
Proof.
  intros Hn. rewrite best_fit_line_unfold by done.
  destruct (decide (length row = 1%nat)) as [H1|H1].
  - destruct row as [|r [|? ?]]; try discriminate. cbn [length].
    change (arange 1) with [of_nat 0]. rewrite of_nat_0.
    replace (dot [0] [0]) with 0 by (unfold dot; cbn; ring).
    replace (qsum [0]) with 0 by (cbn; ring).
    replace (of_nat 1) with 1 by (by rewrite (of_nat_S 0), of_nat_0, Qcplus_0_l).
    replace (dot [0] [r]) with 0 by (unfold dot; cbn; ring).
    rewrite pinv_apply_2_unit. exists 0, (qsum [r]). repeat split; ring.
  - pose proof (det_line_neq_0 (length row) ltac:(lia)) as Hd.
    rewrite pinv_apply_2 by done.
    eexists _, _. split; [reflexivity|]. unfold det2 in *. split; field; done.
Qed.

End solver.

(** * Rows, loops and broadcasting *)

Section arrays.
Import np data_analysis.

Lemma map_seq_sub (u v : vec) :
  length u = length v ->
  map (fun j => nth j u 0 - nth j v 0) (seq 0 (length u)) = zip_with Qcminus u v.
Proof.
  intros Hl. apply list_eq. intros i.
  rewrite list_lookup_fmap, lookup_zip_with.
  destruct (decide (i < length u)%nat) as [Hi|Hi].
  - rewrite lookup_seq_lt by done. cbn. rewrite !nth_lookup.
    assert (i < length v)%nat as Hi' by lia.
    destruct (lookup_lt_is_Some_2 u i Hi) as [x ->].
    destruct (lookup_lt_is_Some_2 v i Hi') as [y ->]. reflexivity.
  - rewrite lookup_seq_ge by lia. rewrite (lookup_ge_None_2 u) by lia. reflexivity.
Qed.

(** Without stretching, [u - v] is the entry-wise difference. *)
Lemma sub1_same_length (u v : vec) :
  length u = length v -> sub1 u v = Ok (zip_with Qcminus u v).
Proof.
  intros Hl. unfold sub1, bdim. rewrite decide_True by done. f_equal.
  destruct (decide (length u = 1%nat)) as [H1|H1].
  - destruct u as [|a [|? ?]]; try discriminate.
    destruct v as [|b [|? ?]]; try discriminate. reflexivity.
  - rewrite <- map_seq_sub by done. apply map_ext. intros j.
    unfold bidx. rewrite <- Hl. by rewrite decide_False.
Qed.

Lemma getrow_lookup (a : ndarray) y r : a !! y = Some r -> getrow a y = Ok r.
Proof. unfold getrow. by intros ->. Qed.

Lemma setrow_lookup (a : ndarray) y old r :
  a !! y = Some old -> length r = length old -> setrow a y r = Ok (<[y := r]> a).
Proof. unfold setrow. intros -> Hl. by rewrite decide_True. Qed.

(** A loop whose body replaces row [y] by [f] of that row maps [f] over the
    rows it visits. *)
Lemma for_rows_map (body : nat -> ndarray -> result ndarray) (f : vec -> vec)
    (P : vec -> Prop) (g : ndarray) :
  (forall y hv row, hv !! y = Some row -> P row -> body y hv = Ok (<[y := f row]> hv)) ->
  Forall P g ->
  forall m k, (k + m <= length g)%nat ->
    for_rows (seq k m) body (map f (take k g) ++ drop k g)
    = Ok (map f (take (k + m) g) ++ drop (k + m) g).
Proof.
  intros Hbody HP. induction m as [|m IH]; intros k Hk.
  - by rewrite Nat.add_0_r.
  - cbn [seq for_rows].
    assert (k < length g)%nat as Hk' by lia.
    destruct (lookup_lt_is_Some_2 g k Hk') as [row Hrow].
    assert (length (map f (take k g)) = k) as Hlen
      by (rewrite length_map; apply length_take_le; lia).
    rewrite (Hbody k _ row).
    + cbn. replace (k + S m)%nat with (S k + m)%nat by lia.
      rewrite <- IH by lia. f_equal.
      rewrite (take_S_r _ _ _ Hrow), map_app, <- app_assoc. cbn [map app].
      rewrite (drop_S _ _ _ Hrow).
      rewrite insert_app_r_alt by lia.
      by rewrite Hlen, Nat.sub_diag.
    + rewrite lookup_app_r by lia. rewrite Hlen, Nat.sub_diag, lookup_drop.
      by rewrite Nat.add_0_r.
    + by apply (Forall_lookup_1 _ _ _ _ HP Hrow).
Qed.

Lemma for_rows_map_all body f P (g : ndarray) :
  (forall y hv row, hv !! y = Some row -> P row -> body y hv = Ok (<[y := f row]> hv)) ->
  Forall P g ->
  for_rows (seq 0 (length g)) body g = Ok (map f g).
Proof.
  intros Hbody HP.
  pose proof (for_rows_map body f P g Hbody HP (length g) 0 (Nat.le_refl _)) as H.
  rewrite take_0, drop_0 in H. cbn [map app Nat.add] in H. rewrite H.
  by rewrite take_ge, drop_ge, app_nil_r.
Qed.

Lemma shape_square n (a : ndarray) : square n a -> shape a = (n, n).
Proof.
  intros [Hl Hr]. unfold shape. rewrite Hl. f_equal.
  destruct a as [|r a]; [by subst|]. cbn. by inversion Hr.
Qed.

(** *** The two drift routines, row by row *)

Lemma length_ssub (v : vec) c : length (ssub v c) = length v.
Proof. apply length_map. Qed.

(** [mean_drift_subtraction] visits the rows [0 .. ny-1]: with at least as
    many rows as columns these rows lose their mean and the others are
    returned as they came. *)
Lemma mean_drift_subtraction_rows (g : ndarray) :
  ((shape g).2 <= length g)%nat ->
  mean_drift_subtraction g =
    Ok (map mean_residual (take (shape g).2 g) ++ drop (shape g).2 g).
Proof.
  intros Hny. unfold mean_drift_subtraction.
  destruct (shape g) as [nx ny] eqn:Hs. cbn [snd] in *.
  assert (forall y (hv : ndarray) row, hv !! y = Some row -> True ->
            (row ← getrow hv y; let mean_height := mean row in
             setrow hv y (ssub row mean_height))
            = Ok (<[y := mean_residual row]> hv)) as Hbody.
  { intros y hv row Hrow _. rewrite (getrow_lookup _ _ _ Hrow). cbn.
    apply (setrow_lookup _ _ _ _ Hrow), length_ssub. }
  pose proof (for_rows_map _ mean_residual (fun _ => True) g Hbody
                (Forall_true _ _ (fun _ => I)) ny 0 Hny) as H.
  rewrite take_0, drop_0 in H. cbn [map app Nat.add] in H. apply H.
Qed.

Lemma ssub_zero (row : vec) : ssub row 0 = row.
Proof.
  unfold ssub. induction row as [|x row IH]; [done|].
  cbn [map]. rewrite IH. f_equal. ring.
Qed.

Lemma length_line (m q : Qc) n : length (sadd (smul m (arange n)) q) = n.
Proof. unfold sadd, smul. by rewrite !length_map, length_arange. Qed.

Lemma length_line_residual (row : vec) : length (line_residual row) = length row.
Proof.
  unfold line_residual.
  destruct (best_fit_line row) as [[|m [|q [|? ?]]]|]; try done.
  rewrite length_zip_with_l_eq; [done|]. by rewrite length_line.
Qed.


(** On a square grid [line_drift_subtraction] replaces every row by its
    residual. *)
Lemma line_drift_subtraction_square n (g : ndarray) :
  square n g -> line_drift_subtraction g = Ok (map line_residual g).
Proof.
  intros Hsq. unfold line_drift_subtraction.
  rewrite (shape_square n g Hsq).
  destruct Hsq as [Hlen Hrows].
  destruct (decide (n = 0%nat)) as [->|Hn].
  { destruct g; [reflexivity | discriminate]. }
  cbv beta iota zeta. subst n.
  apply (for_rows_map_all _ line_residual (fun r => length r = length g)); [|done].
  intros y hv row Hrow Hr.
  rewrite (getrow_lookup _ _ _ Hrow). cbn [mbind result_bind].
  assert (length row <> 0%nat) as Hn' by (by rewrite Hr).
  destruct (best_fit_line_normal row Hn') as (m & q & Hfit & _).
  unfold line_residual. rewrite Hfit.
  unfold best_fit_line in Hfit. rewrite Hr in Hfit. rewrite Hfit.
  cbn [mbind result_bind].
  rewrite sub1_same_length by (by rewrite length_line).
  cbn [mbind result_bind]. rewrite Hr.
  apply (setrow_lookup _ _ _ _ Hrow).
  rewrite length_zip_with_l_eq; [done|]. by rewrite length_line.
Qed.

Lemma map_fixed {A} (f : A -> A) (l : list A) :
  Forall (fun x => f x = x) l -> map f l = l.
Proof. induction 1 as [|x l Hx _ IH]; cbn; congruence. Qed.

Lemma square_map n (f : vec -> vec) (g : ndarray) :
  (forall r, length (f r) = length r) -> square n g -> square n (map f g).
Proof.
  intros Hf [Hl Hr]. split; [by rewrite length_map|].
  apply Forall_fmap. eapply Forall_impl; [exact Hr|].
  intros r Hlen. unfold compose. cbn beta in *. by rewrite Hf.
Qed.

End arrays.

(** * The plane fit on a square grid *)

Section plane.
Import np data_analysis.

Lemma bidx_lt len i : (i < len)%nat -> bidx len i = i.
Proof. unfold bidx. intros Hi. destruct (decide (len = 1%nat)); lia. Qed.

(** Without stretching, [a - b] is the entry-wise difference. *)
Lemma sub2_same_shape r c (a b : ndarray) :
  length a = r -> Forall (fun row => length row = c) a ->
  length b = r -> Forall (fun row => length row = c) b ->
  sub2 a b = Ok (zip_with (zip_with Qcminus) a b).
Proof.
  intros Ha Hra Hb Hrb.
  assert (shape a = (r, c) \/ r = 0%nat) as Hsa.
  { unfold shape. destruct a as [|a0 a]; [right; by subst|left]. cbn.
    rewrite <- Ha. f_equal. by inversion Hra. }
  destruct Hsa as [Hsa| ->].
  2: { destruct a, b; try discriminate. reflexivity. }
  assert (shape b = (r, c)) as Hsb.
  { unfold shape. destruct b as [|b0 b].
    - destruct a; [|cbn in *; lia]. by rewrite <- Hsa.
    - cbn. rewrite <- Hb. f_equal. by inversion Hrb. }
  unfold sub2, get2. rewrite Hsa, Hsb. cbn [fst snd].
  unfold bdim. rewrite !decide_True by done. f_equal.
  apply list_eq. intros i. rewrite list_lookup_fmap, lookup_zip_with.
  destruct (decide (i < r)%nat) as [Hi|Hi].
  - rewrite lookup_seq_lt by done. cbn [fmap option_fmap option_map Nat.add].
    assert (i < length a)%nat as Hia by lia.
    assert (i < length b)%nat as Hib by lia.
    destruct (lookup_lt_is_Some_2 a i Hia) as [ai Hai].
    destruct (lookup_lt_is_Some_2 b i Hib) as [bi Hbi].
    rewrite Hai, Hbi. cbn. f_equal.
    pose proof (Forall_lookup_1 _ _ _ _ Hra Hai) as Hlai.
    pose proof (Forall_lookup_1 _ _ _ _ Hrb Hbi) as Hlbi.
    cbn beta in Hlai, Hlbi.
    rewrite <- map_seq_sub by lia. rewrite Hlai.
    apply map_ext_in. intros j Hj. apply in_seq in Hj.
    rewrite !bidx_lt by lia.
    by rewrite (nth_lookup_Some _ _ _ _ Hai), (nth_lookup_Some _ _ _ _ Hbi).
  - rewrite lookup_seq_ge by lia. rewrite (lookup_ge_None_2 a) by lia. reflexivity.
Qed.

(** Row-major flattening commutes with entry-wise operations. *)
Lemma ravel_map (f : Qc -> Qc) (a : ndarray) : ravel (map (map f) a) = map f (ravel a).
Proof. unfold ravel. by rewrite concat_map. Qed.

Lemma ravel_zip_with (f : Qc -> Qc -> Qc) (a b : ndarray) :
  Forall2 (fun r r' => length r = length r') a b ->
  ravel (zip_with (zip_with f) a b) = zip_with f (ravel a) (ravel b).
Proof.
  unfold ravel. induction 1 as [|r r' a b Hr _ IH]; [done|].
  cbn [zip_with concat]. rewrite IH. symmetry. by apply zip_with_app.
Qed.

Lemma length_ravel_square n (a : ndarray) : square n a -> length (ravel a) = (n * n)%nat.
Proof.
  intros [Hl Hr]. unfold ravel. rewrite <- Hl at 1. clear Hl.
  induction Hr as [|r a Hr _ IH]; [done|].
  cbn [concat length]. rewrite length_app, IH, Hr. lia.
Qed.

Lemma Forall2_same_length_rows c (a b : ndarray) :
  length a = length b ->
  Forall (fun row => length row = c) a -> Forall (fun row => length row = c) b ->
  Forall2 (fun r r' => length r = length r') a b.
Proof.
  intros Hl Ha. revert b Hl. induction Ha as [|r a Hr _ IH]; intros [|r' b] Hl Hb;
    try discriminate; constructor.
  - inversion Hb; subst. congruence.
  - apply IH; [cbn in Hl; lia | by inversion Hb].
Qed.

(** *** Sums over the flattened coordinate matrices *)

Lemma of_nat_mul n m : of_nat (n * m) = of_nat n * of_nat m.
Proof. unfold of_nat. by rewrite Nat2Z.inj_mul, Z2Qc_inj_mul. Qed.

Lemma dot_concat_map {A} (f g : A -> vec) (l : list A) :
  (forall y, length (f y) = length (g y)) ->
  dot (concat (map f l)) (concat (map g l)) = qsum (map (fun y => dot (f y) (g y)) l).
Proof.
  intros Hfg. induction l as [|y l IH]; [done|].
  cbn [map concat]. rewrite dot_app, IH, qsum_cons by apply Hfg. reflexivity.
Qed.

Lemma qsum_concat_map {A} (f : A -> vec) (l : list A) :
  qsum (concat (map f l)) = qsum (map (fun y => qsum (f y)) l).
Proof.
  induction l as [|y l IH]; [done|].
  cbn [map concat]. by rewrite qsum_app, IH, qsum_cons.
Qed.

Lemma dot_const_r {A} (u : vec) c (l : list A) :
  length u = length l -> dot u (map (fun _ => c) l) = c * qsum u.
Proof.
  revert l. induction u as [|x u IH]; intros [|y l] Hl; try discriminate.
  - cbn [map]. rewrite dot_nil_l, qsum_nil. ring.
  - cbn [map]. rewrite dot_cons, qsum_cons, IH by (cbn in Hl; lia). ring.
Qed.

Lemma qsum_map_mul (l : vec) c : qsum (map (fun y => c * y) l) = c * qsum l.
Proof.
  induction l as [|y l IH]; cbn [map].
  - rewrite qsum_nil. ring.
  - rewrite !qsum_cons, IH. ring.
Qed.

Lemma qsum_map_square (l : vec) c :
  qsum (map (fun y => y * (c * y)) l) = c * dot l l.
Proof.
  induction l as [|y l IH]; cbn [map].
  - rewrite qsum_nil, dot_nil_l. ring.
  - rewrite qsum_cons, dot_cons, IH. ring.
Qed.

Lemma length_xf n : length (ravel (meshgrid (arange n) (arange n)).1) = (n * n)%nat.
Proof.
  set (x := arange n). set (xf := ravel (meshgrid x x).1).
  set (yf := ravel (meshgrid x x).2). set (N := of_nat n).
  set (s := qsum x). set (t := dot x x).
  subst xf. unfold ravel, meshgrid. cbn [fst].
  assert (forall (l : vec), length (concat (map (fun _ => x) l)) = (length l * n)%nat)
    as H.
  { induction l as [|y l IH]; [done|].
    cbn [map concat length]. rewrite length_app, IH. subst x.
    rewrite length_arange. lia. }
  rewrite H. subst x. by rewrite length_arange.
Qed.

Lemma length_yf n : length (ravel (meshgrid (arange n) (arange n)).2) = (n * n)%nat.
Proof.
  set (x := arange n). set (xf := ravel (meshgrid x x).1).
  set (yf := ravel (meshgrid x x).2). set (N := of_nat n).
  set (s := qsum x). set (t := dot x x).
  subst yf. unfold ravel, meshgrid. cbn [snd].
  assert (forall (l : vec),
            length (concat (map (fun yi => map (fun _ => yi) x) l))
            = (length l * n)%nat) as H.
  { induction l as [|y l IH]; [done|].
    cbn [map concat length]. rewrite length_app, IH, length_map. subst x.
    rewrite length_arange. lia. }
  rewrite H. subst x. by rewrite length_arange.
Qed.

Lemma dot_xf_xf n : dot (ravel (meshgrid (arange n) (arange n)).1) (ravel (meshgrid (arange n) (arange n)).1) = of_nat n * dot (arange n) (arange n).
Proof.
  set (x := arange n). set (xf := ravel (meshgrid x x).1).
  set (yf := ravel (meshgrid x x).2). set (N := of_nat n).
  set (s := qsum x). set (t := dot x x).
  subst xf. unfold ravel, meshgrid. cbn [fst].
  rewrite dot_concat_map by done. rewrite qsum_const. subst x N t.
  by rewrite length_arange.
Qed.

Lemma dot_xf_yf n : dot (ravel (meshgrid (arange n) (arange n)).1) (ravel (meshgrid (arange n) (arange n)).2) = qsum (arange n) * qsum (arange n).
Proof.
  set (x := arange n). set (xf := ravel (meshgrid x x).1).
  set (yf := ravel (meshgrid x x).2). set (N := of_nat n).
  set (s := qsum x). set (t := dot x x).
  subst xf yf. unfold ravel, meshgrid. cbn [fst snd].
  rewrite dot_concat_map by (intros; by rewrite length_map).
  rewrite (map_ext _ (fun y => s * y)).
  - by rewrite qsum_map_mul.
  - intros y. rewrite dot_const_r by done. subst s. ring.
Qed.

Lemma dot_yf_yf n : dot (ravel (meshgrid (arange n) (arange n)).2) (ravel (meshgrid (arange n) (arange n)).2) = of_nat n * dot (arange n) (arange n).
Proof.
  set (x := arange n). set (xf := ravel (meshgrid x x).1).
  set (yf := ravel (meshgrid x x).2). set (N := of_nat n).
  set (s := qsum x). set (t := dot x x).
  subst yf. unfold ravel, meshgrid. cbn [snd].
  rewrite dot_concat_map by done.
  rewrite (map_ext _ (fun y => y * (N * y))).
  - by rewrite qsum_map_square.
  - intros y. rewrite dot_const_r by (by rewrite length_map).
    rewrite qsum_const. subst N x. by rewrite length_arange.
Qed.

Lemma qsum_xf n : qsum (ravel (meshgrid (arange n) (arange n)).1) = of_nat n * qsum (arange n).
Proof.
  set (x := arange n). set (xf := ravel (meshgrid x x).1).
  set (yf := ravel (meshgrid x x).2). set (N := of_nat n).
  set (s := qsum x). set (t := dot x x).
  subst xf. unfold ravel, meshgrid. cbn [fst].
  rewrite qsum_concat_map, qsum_const. subst N x s.
  by rewrite length_arange.
Qed.

Lemma qsum_yf n : qsum (ravel (meshgrid (arange n) (arange n)).2) = of_nat n * qsum (arange n).
Proof.
  set (x := arange n). set (xf := ravel (meshgrid x x).1).
  set (yf := ravel (meshgrid x x).2). set (N := of_nat n).
  set (s := qsum x). set (t := dot x x).
  subst yf. unfold ravel, meshgrid. cbn [snd].
  rewrite qsum_concat_map.
  rewrite (map_ext _ (fun y => N * y)).
  - by rewrite qsum_map_mul.
  - intros y. rewrite qsum_const. subst N x. by rewrite length_arange.
Qed.


(** *** The fitted plane *)

Lemma best_fit_plane_unfold n (g : ndarray) :
  n <> 0%nat -> square n g ->
  best_fit_plane g =
    Ok (pinv_apply
          [[of_nat n * dot (arange n) (arange n);
            qsum (arange n) * qsum (arange n);
            of_nat n * qsum (arange n)];
           [qsum (arange n) * qsum (arange n);
            of_nat n * dot (arange n) (arange n);
            of_nat n * qsum (arange n)];
           [of_nat n * qsum (arange n);
            of_nat n * qsum (arange n);
            of_nat n * of_nat n]]
          [dot (ravel (meshgrid (arange n) (arange n)).1) (ravel g);
           dot (ravel (meshgrid (arange n) (arange n)).2) (ravel g);
           qsum (ravel g)]).
Proof.
  intros Hn Hsq. unfold best_fit_plane. rewrite (shape_square n g Hsq).
  set (xf := ravel (meshgrid (arange n) (arange n)).1).
  set (yf := ravel (meshgrid (arange n) (arange n)).2).
  change (lstsq 3 (transpose (vstack [xf; yf; ones_like xf])) (ravel g) = Ok
          (pinv_apply
          [[of_nat n * dot (arange n) (arange n);
            qsum (arange n) * qsum (arange n);
            of_nat n * qsum (arange n)];
           [qsum (arange n) * qsum (arange n);
            of_nat n * dot (arange n) (arange n);
            of_nat n * qsum (arange n)];
           [of_nat n * qsum (arange n);
            of_nat n * qsum (arange n);
            of_nat n * of_nat n]]
          [dot xf (ravel g); dot yf (ravel g); qsum (ravel g)])).
  assert (length xf = (n * n)%nat) as Hxf by apply length_xf.
  assert (length yf = (n * n)%nat) as Hyf by apply length_yf.
  assert (length (ravel g) = (n * n)%nat) as Hz by (by apply length_ravel_square).
  assert (n * n <> 0)%nat as Hnn by lia.
  rewrite lstsq_3 by (unfold ones_like; rewrite ?length_map; congruence).
  unfold ones_like.
  rewrite (dot_comm (map _ xf) xf), (dot_comm (map _ xf) yf), (dot_comm (map _ xf) (ravel g)).
  rewrite (dot_ones_r xf xf), (dot_ones_r yf xf), (dot_ones_r (ravel g) xf),
    (dot_ones_r (map _ xf) xf) by (rewrite ?length_map; congruence).
  rewrite (dot_comm yf xf).
  subst xf yf. rewrite dot_xf_xf, dot_xf_yf, dot_yf_yf, qsum_xf, qsum_yf.
  rewrite qsum_const, length_xf, of_nat_mul, Qcmult_1_r. reflexivity.
Qed.

(** The Gram determinant of the plane design on an [n x n] grid is
    [n^2] times the square of that of the line design. *)
Lemma det_plane n :
  det3 (of_nat n * dot (arange n) (arange n))
       (qsum (arange n) * qsum (arange n))
       (of_nat n * qsum (arange n))
       (qsum (arange n) * qsum (arange n))
       (of_nat n * dot (arange n) (arange n))
       (of_nat n * qsum (arange n))
       (of_nat n * qsum (arange n))
       (of_nat n * qsum (arange n))
       (of_nat n * of_nat n)
  = of_nat n * of_nat n
    * det2 (dot (arange n) (arange n)) (qsum (arange n)) (qsum (arange n)) (of_nat n)
    * det2 (dot (arange n) (arange n)) (qsum (arange n)) (qsum (arange n)) (of_nat n).
Proof. unfold det3, det2. ring. Qed.

Lemma det_plane_neq_0 n :
  (2 <= n)%nat ->
  det3 (of_nat n * dot (arange n) (arange n))
       (qsum (arange n) * qsum (arange n))
       (of_nat n * qsum (arange n))
       (qsum (arange n) * qsum (arange n))
       (of_nat n * dot (arange n) (arange n))
       (of_nat n * qsum (arange n))
       (of_nat n * qsum (arange n))
       (of_nat n * qsum (arange n))
       (of_nat n * of_nat n) <> 0.
Proof.
  intros Hn. rewrite det_plane. intros H.
  apply Qcmult_integral in H as [H|H]; [|by apply (det_line_neq_0 n)].
  apply Qcmult_integral in H as [H|H]; [|by apply (det_line_neq_0 n)].
  apply Qcmult_integral in H as [H|H]; apply (of_nat_neq_0 n); (lia || done).
Qed.

Lemma arange_1 : arange 1 = [0].
Proof. change (arange 1) with [of_nat 0]. by rewrite of_nat_0. Qed.

Lemma of_nat_1 : of_nat 1 = 1.
Proof. by rewrite (of_nat_S 0), of_nat_0, Qcplus_0_l. Qed.

Lemma dot_singleton a b : dot [a] [b] = a * b.
Proof. rewrite dot_cons, dot_nil_l. ring. Qed.

Lemma qsum_singleton a : qsum [a] = a.
Proof. rewrite qsum_cons, qsum_nil. ring. Qed.

(** The fitted plane satisfies the normal equations. *)
Lemma best_fit_plane_normal n (g : ndarray) :
  n <> 0%nat -> square n g ->
  exists a b c,
    best_fit_plane g = Ok [a; b; c]
    /\ of_nat n * dot (arange n) (arange n) * a
       + qsum (arange n) * qsum (arange n) * b
       + of_nat n * qsum (arange n) * c
       = dot (ravel (meshgrid (arange n) (arange n)).1) (ravel g)
    /\ qsum (arange n) * qsum (arange n) * a
       + of_nat n * dot (arange n) (arange n) * b
       + of_nat n * qsum (arange n) * c
       = dot (ravel (meshgrid (arange n) (arange n)).2) (ravel g)
    /\ of_nat n * qsum (arange n) * a
       + of_nat n * qsum (arange n) * b
       + of_nat n * of_nat n * c
       = qsum (ravel g).
Proof.
  intros Hn Hsq. rewrite (best_fit_plane_unfold n) by done.
  destruct (decide (n = 1%nat)) as [->|H1].
  - destruct Hsq as [Hl Hr].
    destruct g as [|r [|? ?]]; try discriminate.
    inversion Hr as [|? ? Hr0 _]; subst.
    destruct r as [|z0 [|? ?]]; try discriminate.
    rewrite arange_1, of_nat_1. cbn [meshgrid map fst snd ravel concat app].
    rewrite !dot_singleton, !qsum_singleton.
    rewrite !Qcmult_0_r, !Qcmult_0_l, !Qcmult_1_r.
    rewrite pinv_apply_3_unit.
    exists 0, 0, z0. repeat split; ring.
  - pose proof (det_plane_neq_0 n ltac:(lia)) as Hd.
    destruct (pinv_apply_3_solves _ _ _ _ _ _ _ _ _
                (dot (ravel (meshgrid (arange n) (arange n)).1) (ravel g))
                (dot (ravel (meshgrid (arange n) (arange n)).2) (ravel g))
                (qsum (ravel g)) Hd) as (a & b & c & Hx & H1' & H2' & H3').
    exists a, b, c. rewrite Hx. done.
Qed.

(** A grid orthogonal to the three regressors is fitted by the zero
    plane. *)
Lemma best_fit_plane_zero n (g : ndarray) :
  n <> 0%nat -> square n g ->
  dot (ravel (meshgrid (arange n) (arange n)).1) (ravel g) = 0 ->
  dot (ravel (meshgrid (arange n) (arange n)).2) (ravel g) = 0 ->
  qsum (ravel g) = 0 ->
  best_fit_plane g = Ok [0; 0; 0].
Proof.
  intros Hn Hsq Hx Hy Hs. rewrite (best_fit_plane_unfold n) by done.
  rewrite Hx, Hy, Hs. f_equal.
  destruct (decide (n = 1%nat)) as [->|H1].
  - rewrite arange_1, of_nat_1, !dot_singleton, !qsum_singleton.
    rewrite !Qcmult_0_r, !Qcmult_1_r.
    apply pinv_apply_3_unit.
  - apply pinv_apply_3_zero, det_plane_neq_0. lia.
Qed.

(** *** [common_plane_subtraction] on a square grid *)

Lemma has_shape_map r c (f : Qc -> Qc) (a : ndarray) :
  has_shape r c a -> has_shape r c (map (map f) a).
Proof.
  intros [Hl Hr]. split; [by rewrite length_map|].
  apply Forall_fmap. eapply Forall_impl; [exact Hr|].
  intros row Hrow. unfold compose. cbn beta in *. by rewrite length_map.
Qed.

Lemma has_shape_zip_with r c (f : Qc -> Qc -> Qc) (a b : ndarray) :
  has_shape r c a -> has_shape r c b -> has_shape r c (zip_with (zip_with f) a b).
Proof.
  intros [Hla Hra] [Hlb Hrb]. split.
  - rewrite length_zip_with_l_eq; congruence.
  - clear Hla Hlb. revert b Hrb.
    induction Hra as [|x a Hx _ IH]; intros [|y b] Hrb; cbn [zip_with]; try constructor.
    + inversion Hrb; subst. rewrite length_zip_with_l_eq; congruence.
    + apply IH. by inversion Hrb.
Qed.

Lemma has_shape_rows r c (a b : ndarray) :
  has_shape r c a -> has_shape r c b ->
  Forall2 (fun row row' => length row = length row') a b.
Proof.
  intros [Hla Hra] [Hlb Hrb].
  apply (Forall2_same_length_rows c); congruence.
Qed.

Lemma has_shape_meshgrid n :
  has_shape n n (meshgrid (arange n) (arange n)).1
  /\ has_shape n n (meshgrid (arange n) (arange n)).2.
Proof.
  unfold meshgrid, has_shape. cbn [fst snd]. rewrite !length_map, length_arange.
  repeat split; try done.
  - apply Forall_fmap, Forall_true. intros ?. apply length_arange.
  - apply Forall_fmap, Forall_true. intros ?. unfold compose.
    by rewrite length_map, length_arange.
Qed.

Lemma plane_values_eq n a b c :
  plane_values n a b c =
    sadd2 (add2 (smul2 a (meshgrid (arange n) (arange n)).1)
                (smul2 b (meshgrid (arange n) (arange n)).2)) c.
Proof. reflexivity. Qed.

Lemma has_shape_plane_values n a b c : has_shape n n (plane_values n a b c).
Proof.
  destruct (has_shape_meshgrid n) as [HX HY].
  rewrite plane_values_eq. unfold sadd2, sadd, add2, smul2, smul.
  apply has_shape_map, has_shape_zip_with; by apply has_shape_map.
Qed.

Lemma ravel_plane_values n a b c :
  ravel (plane_values n a b c) =
    sadd (zip_with Qcplus (smul a (ravel (meshgrid (arange n) (arange n)).1))
                          (smul b (ravel (meshgrid (arange n) (arange n)).2))) c.
Proof.
  destruct (has_shape_meshgrid n) as [HX HY].
  rewrite plane_values_eq. unfold sadd2, sadd, add2, smul2, smul.
  rewrite ravel_map, ravel_zip_with, !ravel_map; [done|].
  apply (has_shape_rows n n); by apply has_shape_map.
Qed.

(** The routine subtracts the whole fitted plane, constant included. *)
Lemma common_plane_subtraction_square n (g : ndarray) a b c :
  square n g -> best_fit_plane g = Ok [a; b; c] ->
  common_plane_subtraction g = Ok (zip_with (zip_with Qcminus) g (plane_values n a b c)).
Proof.
  intros Hsq Hfit. unfold common_plane_subtraction.
  unfold best_fit_plane in Hfit. rewrite (shape_square n g Hsq) in *.
  unfold meshgrid in *. rewrite Hfit. cbn [mbind result_bind].
  apply (sub2_same_shape n n); try apply Hsq; apply (has_shape_plane_values n a b c).
Qed.

(** What is left is orthogonal to the three regressors. *)
Lemma plane_residual_orthogonal n (g : ndarray) a b c :
  n <> 0%nat -> square n g -> best_fit_plane g = Ok [a; b; c] ->
  dot (ravel (meshgrid (arange n) (arange n)).1)
      (ravel (zip_with (zip_with Qcminus) g (plane_values n a b c))) = 0
  /\ dot (ravel (meshgrid (arange n) (arange n)).2)
         (ravel (zip_with (zip_with Qcminus) g (plane_values n a b c))) = 0
  /\ qsum (ravel (zip_with (zip_with Qcminus) g (plane_values n a b c))) = 0.
Proof.
  intros Hn Hsq Hfit.
  destruct (best_fit_plane_normal n g Hn Hsq) as (a' & b' & c' & Hfit' & H1 & H2 & H3).
  rewrite Hfit in Hfit'. injection Hfit' as <- <- <-.
  rewrite ravel_zip_with
    by (apply (has_shape_rows n n); [apply Hsq | apply has_shape_plane_values]).
  rewrite ravel_plane_values.
  set (xf := ravel (meshgrid (arange n) (arange n)).1) in *.
  set (yf := ravel (meshgrid (arange n) (arange n)).2) in *.
  assert (length xf = (n * n)%nat) as Hxf by apply length_xf.
  assert (length yf = (n * n)%nat) as Hyf by apply length_yf.
  assert (length (ravel g) = (n * n)%nat) as Hz by (by apply length_ravel_square).
  assert (length (smul a xf) = (n * n)%nat) as Hax by (unfold smul; by rewrite length_map).
  assert (length (smul b yf) = (n * n)%nat) as Hby by (unfold smul; by rewrite length_map).
  assert (length (zip_with Qcplus (smul a xf) (smul b yf)) = (n * n)%nat) as Hsum
    by (rewrite length_zip_with_l_eq; congruence).
  assert (length (sadd (zip_with Qcplus (smul a xf) (smul b yf)) c) = (n * n)%nat) as Hp
    by (unfold sadd; by rewrite length_map).
  assert (forall u : vec, length u = (n * n)%nat ->
            dot u (zip_with Qcminus (ravel g)
                     (sadd (zip_with Qcplus (smul a xf) (smul b yf)) c))
            = dot u (ravel g) - (a * dot u xf + b * dot u yf + c * qsum u)) as Hlin.
  { intros u Hu. rewrite dot_sub_r by congruence.
    rewrite dot_sadd_r by congruence.
    rewrite dot_add_r by congruence.
    by rewrite !dot_smul_r. }
  repeat split.
  - rewrite Hlin by done. rewrite <- H1.
    subst xf yf. rewrite dot_xf_xf, dot_xf_yf, qsum_xf. ring.
  - rewrite Hlin by done. rewrite <- H2.
    rewrite (dot_comm yf xf).
    subst xf yf. rewrite dot_yf_yf, dot_xf_yf, qsum_yf. ring.
  - rewrite <- (dot_ones_r (zip_with _ _ _) xf)
      by (rewrite length_zip_with_l_eq; congruence).
    rewrite dot_comm, Hlin by (by rewrite length_map).
    rewrite !(dot_comm (map _ xf)).
    rewrite (dot_ones_r (ravel g) xf), (dot_ones_r xf xf), (dot_ones_r yf xf)
      by congruence.
    rewrite qsum_const, Hxf, of_nat_mul, <- H3.
    subst xf yf. rewrite qsum_xf, qsum_yf. ring.
Qed.

(** *** The second pass *)

Lemma Forall_ravel (P : Qc -> Prop) (a : ndarray) :
  Forall P (ravel a) -> Forall (Forall P) a.
Proof.
  unfold ravel. induction a as [|r a IH]; cbn [concat]; [constructor|].
  intros [Hr Ha]%Forall_app. constructor; auto.
Qed.

Lemma plane_values_zero n : Forall (Forall (fun t => t = 0)) (plane_values n 0 0 0).
Proof.
  apply Forall_ravel. rewrite ravel_plane_values. unfold sadd, smul.
  apply Forall_fmap.
  apply (Forall_zip_with_fst Qcplus (fun t => t = 0)).
  - apply Forall_fmap, Forall_true. intros t. unfold compose. ring.
  - apply Forall_fmap, Forall_true. intros t x ->. unfold compose. ring.
Qed.

Lemma zip_sub_zero_row (row p : vec) :
  length row = length p -> Forall (fun t => t = 0) p -> zip_with Qcminus row p = row.
Proof.
  revert p. induction row as [|x row IH]; intros [|y p] Hl Hp; try discriminate; [done|].
  inversion Hp; subst. cbn [zip_with]. rewrite IH by (cbn in Hl; auto with lia).
  f_equal. ring.
Qed.

Lemma zip_sub_zero_grid r c (g p : ndarray) :
  has_shape r c g -> has_shape r c p ->
  Forall (Forall (fun t => t = 0)) p ->
  zip_with (zip_with Qcminus) g p = g.
Proof.
  intros Hg Hp Hz. pose proof (has_shape_rows r c g p Hg Hp) as Hrows.
  clear Hg Hp. induction Hrows as [|x y g p Hxy _ IH]; [done|].
  inversion Hz; subst. cbn [zip_with].
  rewrite zip_sub_zero_row, IH by done. reflexivity.
Qed.

(** On a square grid the routine returns a square grid whose fitted plane
    is zero, and a second pass returns that grid again. *)
Lemma common_plane_subtraction_square_idempotent n (g : ndarray) :
  square n g ->
  exists g',
    common_plane_subtraction g = Ok g'
    /\ square n g'
    /\ (n <> 0%nat -> best_fit_plane g' = Ok [0; 0; 0])
    /\ common_plane_subtraction g' = Ok g'.
Proof.
  intros Hsq. destruct (decide (n = 0%nat)) as [->|Hn].
  { destruct Hsq as [Hl _]. destruct g; [|discriminate].
    exists []. repeat split; done. }
  destruct (best_fit_plane_normal n g Hn Hsq) as (a & b & c & Hfit & _).
  exists (zip_with (zip_with Qcminus) g (plane_values n a b c)).
  assert (square n (zip_with (zip_with Qcminus) g (plane_values n a b c))) as Hsq'
    by (apply has_shape_zip_with; [done | apply has_shape_plane_values]).
  destruct (plane_residual_orthogonal n g a b c Hn Hsq Hfit) as (Hx & Hy & Hs).
  pose proof (best_fit_plane_zero n _ Hn Hsq' Hx Hy Hs) as Hfit'.
  split; [by apply common_plane_subtraction_square|].
  split; [done|]. split; [done|].
  rewrite (common_plane_subtraction_square n _ 0 0 0) by done. f_equal.
  apply (zip_sub_zero_grid n n); [done | apply has_shape_plane_values
                                 | apply plane_values_zero].
Qed.

(** With the constant subtracted too, the result has mean zero whatever the
    mean of the input was. *)
Lemma common_plane_subtraction_mean_zero n (g : ndarray) :
  n <> 0%nat -> square n g ->
  exists g', common_plane_subtraction g = Ok g' /\ mean2 g' = 0.
Proof.
  intros Hn Hsq.
  destruct (best_fit_plane_normal n g Hn Hsq) as (a & b & c & Hfit & _).
  destruct (plane_residual_orthogonal n g a b c Hn Hsq Hfit) as (_ & _ & Hs).
  eexists. split; [by apply (common_plane_subtraction_square n)|].
  unfold mean2, mean. rewrite Hs. unfold Qcdiv. ring.
Qed.

End plane.

(** * The fits are least-squares fits *)

Section least_squares.
Import np data_analysis.









End least_squares.

(** * The vertical shifts *)

Section shifts.
Import np data_analysis.

Lemma Qcmin_shift x y c : Qcmin (x - c) (y - c) = Qcmin x y - c.
Proof.
  unfold Qcmin, Qcminus.
  destruct (Qclt_le_dec (y + - c) (x + - c)) as [H|H], (Qclt_le_dec y x) as [H'|H'];
    try reflexivity; exfalso.
  - apply Qcplus_lt_mono_r in H. by apply (Qcle_not_lt _ _ H').
  - apply (Qcplus_lt_mono_r _ _ (- c)) in H'. by apply (Qcle_not_lt _ _ H).
Qed.

Lemma foldl_Qcmin_shift c v x :
  foldl Qcmin (x - c) (map (fun t => t - c) v) = foldl Qcmin x v - c.
Proof.
  revert x. induction v as [|y v IH]; intros x; [done|].
  cbn [map foldl]. by rewrite Qcmin_shift, IH.
Qed.

Lemma Qcmin_le_l x y : Qcmin x y <= x.
Proof.
  unfold Qcmin. destruct (Qclt_le_dec y x) as [H|H].
  - by apply Qclt_le_weak.
  - apply Qcle_refl.
Qed.

Lemma Qcmin_le_r x y : Qcmin x y <= y.
Proof.
  unfold Qcmin. destruct (Qclt_le_dec y x) as [H|H]; [apply Qcle_refl | done].
Qed.

Lemma Qcmin_cases x y : Qcmin x y = x \/ Qcmin x y = y.
Proof. unfold Qcmin. destruct (Qclt_le_dec y x); auto. Qed.

(** [foldl Qcmin] finds a least element. *)
Lemma foldl_Qcmin_least v x :
  In (foldl Qcmin x v) (x :: v) /\ Forall (fun t => foldl Qcmin x v <= t) (x :: v).
Proof.
  revert x. induction v as [|y v IH]; intros x.
  - cbn. split; [by left|]. repeat constructor. apply Qcle_refl.
  - cbn [foldl]. destruct (IH (Qcmin x y)) as [Hin Hle]. split.
    + destruct Hin as [Hin|Hin]; [|right; by right].
      rewrite <- Hin. destruct (Qcmin_cases x y) as [-> | ->]; [by left | right; by left].
    + inversion Hle as [|? ? Hm Hv]; subst.
      constructor; [|constructor]; [| |done].
      * eapply Qcle_trans; [exact Hm | apply Qcmin_le_l].
      * eapply Qcle_trans; [exact Hm | apply Qcmin_le_r].
Qed.

Lemma shape_map_rows (f : vec -> vec) (g : ndarray) :
  (forall r, length (f r) = length r) -> shape (map f g) = shape g.
Proof.
  intros Hf. unfold shape. rewrite length_map. f_equal.
  destruct g as [|r g]; [done|]. cbn. apply Hf.
Qed.

(** C8: on a grid with at least one element, [shift_min] returns a grid
    of the same shape (row by row) whose least element is exactly 0: 0
    occurs in it, no entry is below 0, and [np.min] of it is 0. *)
Theorem shift_min_minimum_is_zero (g : ndarray) :
  ravel g <> [] ->
  exists g',
    shift_min g = Ok g'
    /\ shape g' = shape g
    /\ Forall2 (fun r r' => length r' = length r) g g'
    /\ min g' = Ok 0
    /\ In 0 (ravel g')
    /\ Forall (fun t => 0 <= t) (ravel g').
Proof.
  intros Hne. unfold shift_min, min.
  destruct (ravel g) as [|x v] eqn:Hg; [done|]. cbn [mbind result_bind].
  set (m := foldl Qcmin x v).
  exists (ssub2 g m). split; [done|].
  split; [apply (shape_map_rows (fun r => ssub r m)); intros r; apply length_ssub|].
  split.
  { unfold ssub2. apply Forall2_fmap_r, Forall_Forall2_diag, Forall_true.
    intros r. apply length_ssub. }
  assert (ravel (ssub2 g m) = map (fun t => t - m) (x :: v)) as Hr.
  { rewrite <- Hg. unfold ssub2, ssub. apply ravel_map. }
  rewrite Hr. cbn [map].
  destruct (foldl_Qcmin_least v x) as [Hin Hle]. fold m in Hin, Hle.
  assert (m - m = 0) as Hmm by ring.
  split; [|split].
  - rewrite foldl_Qcmin_shift. fold m. by rewrite Hmm.
  - change ((x - m) :: map (fun t => t - m) v) with (map (fun t => t - m) (x :: v)).
    rewrite <- Hmm. by apply (in_map (fun t => t - m)).
  - change ((x - m) :: map (fun t => t - m) v) with (map (fun t => t - m) (x :: v)).
    apply Forall_fmap. eapply Forall_impl; [exact Hle|].
    intros t Ht. unfold compose. cbn beta in *.
    apply Qcle_minus_iff in Ht. exact Ht.
Qed.

Lemma shift_min_minimum_is_zero_witness :
  exists g',
    shift_min (of_Z [[3; -4; 1]; [0; 7; 2]]%Z) = Ok g'
    /\ shape g' = shape (of_Z [[3; -4; 1]; [0; 7; 2]]%Z)
    /\ Forall2 (fun r r' => length r' = length r) (of_Z [[3; -4; 1]; [0; 7; 2]]%Z) g'
    /\ min g' = Ok 0
    /\ In 0 (ravel g')
    /\ Forall (fun t => 0 <= t) (ravel g').
Proof.
  apply (shift_min_minimum_is_zero (of_Z [[3; -4; 1]; [0; 7; 2]]%Z)).
  discriminate.
Defined.

(** On a square grid every correction returns, and returns a grid of the
    same shape ([shift_min] needs an element to take the minimum of). *)
Lemma corrections_on_square_grids n (g : ndarray) :
  square n g ->
  (exists g', common_plane_subtraction g = Ok g' /\ square n g')
  /\ (exists g', line_drift_subtraction g = Ok g' /\ square n g')
  /\ (exists g', mean_drift_subtraction g = Ok g' /\ square n g')
  /\ (exists g', shift_mean g = Ok g' /\ square n g')
  /\ (n <> 0%nat -> exists g', shift_min g = Ok g' /\ square n g').
Proof.
  intros Hsq. repeat split.
  - destruct (common_plane_subtraction_square_idempotent n g Hsq) as (g' & H & Hs & _).
    by exists g'.
  - exists (map line_residual g). split; [by apply (line_drift_subtraction_square n)|].
    by apply square_map; [apply length_line_residual|].
  - exists (map mean_residual g).
    rewrite mean_drift_subtraction_rows
      by (rewrite (shape_square n _ Hsq); destruct Hsq as [-> _]; done).
    rewrite (shape_square n _ Hsq). cbn [snd].
    rewrite take_ge, drop_ge, app_nil_r by (destruct Hsq as [-> _]; done).
    split; [done|]. apply square_map; [|done]. intros r. apply length_ssub.
  - exists (ssub2 g (mean2 g)). split; [done|].
    apply (square_map n (fun r => ssub r (mean2 g))); [|done]. intros r. apply length_ssub.
  - intros Hn. unfold shift_min, min.
    destruct (ravel g) as [|x v] eqn:Hg.
    + apply (f_equal length) in Hg. rewrite (length_ravel_square n) in Hg by done.
      cbn in Hg. lia.
    + cbn [mbind result_bind]. eexists. split; [reflexivity|].
      apply (square_map n (fun r => ssub r _)); [|done]. intros r. apply length_ssub.
Qed.

End shifts.

(** * The corrections on concrete grids *)

Section evaluations.
Import np data_analysis.

(** C1: on a level grid of height 5 the fitted plane is [z = 5]; the
    routine returns the zero grid, where subtracting the tilt alone would
    return the grid as it is, with its mean of 5. *)
Theorem common_plane_subtraction_subtracts_the_constant :
  best_fit_plane (of_Z [[5; 5]; [5; 5]]%Z) = Ok [0; 0; Qc_of_Z 5]
  /\ common_plane_subtraction (of_Z [[5; 5]; [5; 5]]%Z) = Ok (of_Z [[0; 0]; [0; 0]]%Z)
  /\ tilt_only_subtraction (of_Z [[5; 5]; [5; 5]]%Z) = Ok (of_Z [[5; 5]; [5; 5]]%Z)
  /\ mean2 (of_Z [[5; 5]; [5; 5]]%Z) = Qc_of_Z 5
  /\ mean2 (of_Z [[0; 0]; [0; 0]]%Z) = 0.
Proof. repeat split; by_eval. Qed.

(** C4: on grids that are not square the plane subtraction changes the
    shape or raises, and the two drift routines raise. *)
Theorem corrections_on_non_square_grids :
  shape (of_Z [[0; 1; 5]]%Z) = (1%nat, 3%nat)
  /\ common_plane_subtraction (of_Z [[0; 1; 5]]%Z)
     = Ok (of_Q [[1#2; 3#2; 11#2]; [-2; -1; 3]; [-9#2; -7#2; 1#2]]%Q)
  /\ shape (of_Q [[1#2; 3#2; 11#2]; [-2; -1; 3]; [-9#2; -7#2; 1#2]]%Q) = (3%nat, 3%nat)
  /\ common_plane_subtraction (of_Z [[0; 1; 5]; [2; 0; 1]]%Z) = Raise ValueError
  /\ line_drift_subtraction (of_Z [[0; 1; 5]; [2; 0; 1]]%Z) = Raise LinAlgError
  /\ line_drift_subtraction (of_Z [[0; 1]; [5; 2]; [0; 1]]%Z) = Raise LinAlgError
  /\ mean_drift_subtraction (of_Z [[0; 1; 5]; [2; 0; 1]]%Z) = Raise IndexError.
Proof. repeat split; by_eval. Qed.

(** C5: on a grid with three rows and two columns the third row is
    returned as it came, with its mean of 6. *)
Theorem mean_drift_subtraction_skips_rows :
  mean_drift_subtraction (of_Z [[1; 2]; [3; 4]; [5; 7]]%Z)
  = Ok (of_Q [[-1#2; 1#2]; [-1#2; 1#2]; [5; 7]]%Q)
  /\ mean (map Q2Qc [5; 7]%Q) = Q2Qc 6.
Proof. repeat split; by_eval. Qed.

(** C9: on a grid with one row and three columns the second pass changes
    the result of the first. *)
Theorem common_plane_subtraction_twice_on_a_row :
  common_plane_subtraction (of_Z [[0; 1; 5]]%Z)
  = Ok (of_Q [[1#2; 3#2; 11#2]; [-2; -1; 3]; [-9#2; -7#2; 1#2]]%Q)
  /\ common_plane_subtraction
       (of_Q [[1#2; 3#2; 11#2]; [-2; -1; 3]; [-9#2; -7#2; 1#2]]%Q)
     = Ok (of_Q [[1#2; -1; 1#2]; [1#2; -1; 1#2]; [1#2; -1; 1#2]]%Q)
  /\ of_Q [[1#2; 3#2; 11#2]; [-2; -1; 3]; [-9#2; -7#2; 1#2]]%Q
     <> of_Q [[1#2; -1; 1#2]; [1#2; -1; 1#2]; [1#2; -1; 1#2]]%Q.
Proof. repeat split; by_eval. Qed.

End evaluations.

(** * Properties of the driver script *)

Section script_facts.
Import np AFM_image_analyser.

Local Arguments data_analysis.common_plane_subtraction : simpl never.
Local Arguments data_analysis.line_drift_subtraction : simpl never.
Local Arguments data_analysis.mean_drift_subtraction : simpl never.
Local Arguments data_analysis.shift_min : simpl never.
Local Arguments data_analysis.shift_mean : simpl never.

Ltac run_script args :=
  unfold main, script, plane_stage, drift_stage, shift_stage, fallback, render;
  destruct args as [[|? ?]|]; unfold results_stage, mbind, mret, prog_bind, prog_ret.

(** C2: with [common_plane_subtraction] set to "no" and
    [line_drift_correction] set to "linear" or to "mean" (in any case of
    the letters), the calls into [data_analysis] are, in this order:
    [common_plane_subtraction] on the image, [line_drift_subtraction] on
    its result, and then what the vertical-shift stage calls on the result
    of that; [mean_drift_subtraction] is not called. *)
Theorem fallback_dispatches_to_line_drift args s hv hv1 hv2 :
  lower (settings.common_plane_subtraction s) = "no" ->
  lower (settings.line_drift_correction s) = "linear"
    \/ lower (settings.line_drift_correction s) = "mean" ->
  data_analysis.common_plane_subtraction hv = Ok hv1 ->
  data_analysis.line_drift_subtraction hv1 = Ok hv2 ->
  analysis_calls (main args s hv).1 =
    [call_common_plane_subtraction hv; call_line_drift_subtraction hv1]
    ++ shift_calls s hv2.
Proof.
  intros Hp Hd H1 H2. unfold analysis_calls, shift_calls.
  run_script args; rewrite Hp; destruct Hd as [-> | ->]; cbn.
  all: unfold plane, line, apply; cbn; rewrite H1; cbn; rewrite H2; cbn.
  all: destruct (String.eqb (lower (settings.data_shift s)) "minimum");
    [ unfold shift_min, apply; cbn; destruct (data_analysis.shift_min hv2); reflexivity | ].
  all: destruct (String.eqb (lower (settings.data_shift s)) "mean");
    [ unfold shift_mean, apply; cbn; destruct (data_analysis.shift_mean hv2); reflexivity
    | reflexivity ].
Qed.

Lemma fallback_dispatches_to_line_drift_witness :
  analysis_calls
    (main None (example_settings "No" "MEAN" "minimum") (of_Z [[1;0;0];[0;0;0];[0;0;0]]%Z)).1 =
  [call_common_plane_subtraction (of_Z [[1;0;0];[0;0;0];[0;0;0]]%Z);
   call_line_drift_subtraction
     (of_Q [[5#9; -5#18; -1#9]; [-5#18; -1#9; 1#18]; [-1#9; 1#18; 2#9]]%Q)]
  ++ shift_calls (example_settings "No" "MEAN" "minimum")
       (of_Q [[1#6; -1#3; 1#6]; [0; 0; 0]; [0; 0; 0]]%Q).
Proof.
  apply (fallback_dispatches_to_line_drift None
           (example_settings "No" "MEAN" "minimum")
           (of_Z [[1;0;0];[0;0;0];[0;0;0]]%Z)
           (of_Q [[5#9; -5#18; -1#9]; [-5#18; -1#9; 1#18]; [-1#9; 1#18; 2#9]]%Q)
           (of_Q [[1#6; -1#3; 1#6]; [0; 0; 0]; [0; 0; 0]]%Q)).
  - reflexivity.
  - right. reflexivity.
  - by_eval.
  - by_eval.
Defined.

(** C3, as amended: in the fallback branch, once the two automatic
    corrections have returned, exactly one warning has gone to the live
    channel, with category [UserWarning] and exactly the text of the
    specification, and exactly one entry has been appended to
    [warning_list]: the same text behind the prefix ["UserWarning: "]. *)
Theorem fallback_records_one_warning args s hv hv1 hv2 :
  lower (settings.common_plane_subtraction s) = "no" ->
  lower (settings.line_drift_correction s) = "linear"
    \/ lower (settings.line_drift_correction s) = "mean" ->
  data_analysis.common_plane_subtraction hv = Ok hv1 ->
  data_analysis.line_drift_subtraction hv1 = Ok hv2 ->
  warned (main args s hv).1 =
    [(UserWarning,
      "Linear drift correction was requested without plane subtraction. Common plane subtraction has been applied automatically to ensure accuracy.")]
  /\ warning_list (main args s hv).1 =
    ["UserWarning: Linear drift correction was requested without plane subtraction. Common plane subtraction has been applied automatically to ensure accuracy."].
Proof.
  intros Hp Hd H1 H2.
  run_script args; rewrite Hp; destruct Hd as [-> | ->]; cbn.
  all: unfold plane, line, apply; cbn; rewrite H1; cbn; rewrite H2; cbn.
  all: destruct (String.eqb (lower (settings.data_shift s)) "minimum");
    [ unfold shift_min, apply; cbn; destruct (data_analysis.shift_min hv2); split; reflexivity | ].
  all: destruct (String.eqb (lower (settings.data_shift s)) "mean");
    [ unfold shift_mean, apply; cbn; destruct (data_analysis.shift_mean hv2); split; reflexivity
    | split; reflexivity ].
Qed.

Lemma fallback_records_one_warning_witness :
  warned (main None (example_settings "no" "linear" "mean") (of_Z [[0;2];[4;7]]%Z)).1 =
    [(UserWarning,
      "Linear drift correction was requested without plane subtraction. Common plane subtraction has been applied automatically to ensure accuracy.")]
  /\ warning_list (main None (example_settings "no" "linear" "mean") (of_Z [[0;2];[4;7]]%Z)).1 =
    ["UserWarning: Linear drift correction was requested without plane subtraction. Common plane subtraction has been applied automatically to ensure accuracy."].
Proof.
  apply (fallback_records_one_warning None (example_settings "no" "linear" "mean")
           (of_Z [[0;2];[4;7]]%Z)
           (of_Q [[1#4; -1#4]; [-1#4; 1#4]]%Q)
           (of_Q [[0; 0]; [0; 0]]%Q)).
  - reflexivity.
  - left. reflexivity.
  - by_eval.
  - by_eval.
Defined.

(** C3, as stated, fails: the entry of [warning_list] is not the bare
    text. *)
Lemma warning_list_entry_is_not_the_bare_text :
  ~ (map snd (warned (main None (example_settings "no" "linear" "mean")
                        (of_Z [[0;2];[4;7]]%Z)).1) =
       ["Linear drift correction was requested without plane subtraction. Common plane subtraction has been applied automatically to ensure accuracy."]
     /\ warning_list (main None (example_settings "no" "linear" "mean")
                        (of_Z [[0;2];[4;7]]%Z)).1 =
       ["Linear drift correction was requested without plane subtraction. Common plane subtraction has been applied automatically to ensure accuracy."]).
Proof.
  intros [_ H]. vm_compute in H. discriminate H.
Qed.

(** C7: the message raised for an unrecognised [line_drift_correction]
    names another field and another set of values. *)
Theorem line_drift_correction_error_message :
  (main None (example_settings "no" "quadratic" "minimum") (of_Z [[0;2];[4;7]]%Z)).2 =
    Raise (TypeError
      "Variable inserted for 'linear_drift_subtraction' in settings.json is not valid. Please insert 'yes' or 'no' (variable is not case-sensitive).")
  /\ index 0 "line_drift_correction" msg_line_drift_correction = None
  /\ index 0 "mean" msg_line_drift_correction = None
  /\ index 0 "'linear'" msg_line_drift_correction = None.
Proof. repeat split; reflexivity. Qed.

Lemma eqb_false_of_neq (a b : string) : a <> b -> String.eqb a b = false.
Proof. by intros ?%String.eqb_neq. Qed.

(** C6: with [data_shift] = "Invalid", plane subtraction requested and an
    image of two rows and three columns, the run ends in the [ValueError]
    that [common_plane_subtraction] raises on such a grid: the check of
    [data_shift] is never reached and no configuration error is raised.
    On a square image the same settings end in the configuration error of
    [data_shift].  In the first run nothing has been plotted or closed. *)
Theorem invalid_data_shift_on_a_non_square_image :
  (main None (example_settings "yes" "no" "Invalid") (of_Z [[0; 1; 5]; [2; 0; 1]]%Z)).2
  = Raise ValueError
  /\ ~ is_TypeError ValueError
  /\ Forall (fun ev => is_output ev = false)
       (trace (main None (example_settings "yes" "no" "Invalid")
                 (of_Z [[0; 1; 5]; [2; 0; 1]]%Z)).1)
  /\ (main None (example_settings "yes" "no" "Invalid") (of_Z [[0; 2]; [4; 7]]%Z)).2
     = Raise (TypeError msg_data_shift).
Proof.
  split; [by_eval|]. split; [by intros []|]. split; [|by_eval].
  vm_compute. repeat constructor.
Qed.

(** X20: with a setting outside its enumerated set the run ends in an
    exception before anything is plotted or closed; whenever the grid is
    square, so that the corrections called on the way return, the
    exception is the [TypeError] of the configuration check. *)
Theorem invalid_settings_abort_before_rendering args s hv :
  ~ valid s ->
  exists e,
    (main args s hv).2 = Raise e
    /\ Forall (fun ev => is_output ev = false) (trace (main args s hv).1)
    /\ (forall n, square n hv -> is_TypeError e).
Proof.
  intros Hinv.
  destruct (decide (lower (settings.common_plane_subtraction s) = "yes")) as [Hy|Hy];
  destruct (decide (lower (settings.common_plane_subtraction s) = "no")) as [Hn|Hn];
  destruct (decide (lower (settings.line_drift_correction s) = "linear")) as [Hl|Hl];
  destruct (decide (lower (settings.line_drift_correction s) = "mean")) as [Hm|Hm];
  destruct (decide (lower (settings.line_drift_correction s) = "no")) as [Ho|Ho];
  destruct (decide (lower (settings.data_shift s) = "minimum")) as [Hmin|Hmin];
  destruct (decide (lower (settings.data_shift s) = "mean")) as [Hmean|Hmean];
  try congruence;
  try (exfalso; apply Hinv; unfold valid, valid_common_plane_subtraction,
         valid_line_drift_correction, valid_data_shift; tauto).
  all: repeat match goal with
              | H : lower _ <> _ |- _ => apply eqb_false_of_neq in H
              end.
  all: unfold main, script, plane_stage, drift_stage, shift_stage, fallback, render,
         results_stage, mbind, mret, prog_bind, prog_ret.
  all: repeat match goal with
              | H : lower _ = _ |- _ => rewrite !H; clear H
              | H : String.eqb (lower _) _ = false |- _ => rewrite !H; clear H
              end.
  all: destruct args as [[|? ?]|]; cbn.
  all: unfold plane, line, mean_drift, apply; cbn.
  all: repeat match goal with
              | |- context [data_analysis.common_plane_subtraction ?g] =>
                  destruct (data_analysis.common_plane_subtraction g) eqn:?; cbn
              | |- context [data_analysis.line_drift_subtraction ?g] =>
                  destruct (data_analysis.line_drift_subtraction g) eqn:?; cbn
              | |- context [data_analysis.mean_drift_subtraction ?g] =>
                  destruct (data_analysis.mean_drift_subtraction g) eqn:?; cbn
              end.
  all: eexists; split; [reflexivity|]; split; [repeat constructor|].
  all: intros n Hsq; try exact I.
  all: repeat match goal with
              | Hs : square ?n ?g, H : data_analysis.common_plane_subtraction ?g = _ |- _ =>
                  let H' := fresh in
                  destruct (corrections_on_square_grids n g Hs) as ((? & H' & ?) & _);
                  rewrite H' in H; clear H'; first [discriminate H | injection H as ->]
              | Hs : square ?n ?g, H : data_analysis.line_drift_subtraction ?g = _ |- _ =>
                  let H' := fresh in
                  destruct (corrections_on_square_grids n g Hs) as (_ & (? & H' & ?) & _);
                  rewrite H' in H; clear H'; first [discriminate H | injection H as ->]
              | Hs : square ?n ?g, H : data_analysis.mean_drift_subtraction ?g = _ |- _ =>
                  let H' := fresh in
                  destruct (corrections_on_square_grids n g Hs) as (_ & _ & (? & H' & ?) & _);
                  rewrite H' in H; clear H'; first [discriminate H | injection H as ->]
              end.
Qed.

Lemma invalid_settings_abort_before_rendering_witness :
  exists e,
    (main (Some "results.txt") (example_settings "yes" "mean" "Invalid")
          (of_Z [[0;2];[4;7]]%Z)).2 = Raise e
    /\ Forall (fun ev => is_output ev = false)
         (trace (main (Some "results.txt") (example_settings "yes" "mean" "Invalid")
                      (of_Z [[0;2];[4;7]]%Z)).1)
    /\ (forall n, square n (of_Z [[0;2];[4;7]]%Z) -> is_TypeError e).
Proof.
  apply (invalid_settings_abort_before_rendering (Some "results.txt")
           (example_settings "yes" "mean" "Invalid") (of_Z [[0;2];[4;7]]%Z)).
  unfold valid, valid_data_shift. cbn. intros (_ & _ & [H|H]); discriminate H.
Defined.

End script_facts.

(** * Further properties of the vertical shifts *)

Section more_shifts.
Import np data_analysis.

Lemma ravel_ssub2 (g : ndarray) c : ravel (ssub2 g c) = ssub (ravel g) c.
Proof. unfold ssub2, ssub. apply ravel_map. Qed.

Lemma min_ssub2_min (g : ndarray) m : min g = Ok m -> min (ssub2 g m) = Ok 0.
Proof.
  unfold min. rewrite ravel_ssub2. destruct (ravel g) as [|x v]; [discriminate|].
  intros [= <-]. unfold ssub. cbn [map]. rewrite foldl_Qcmin_shift. f_equal. ring.
Qed.

Lemma ssub2_zero (g : ndarray) : ssub2 g 0 = g.
Proof. unfold ssub2. apply map_fixed, Forall_true. intros r. apply ssub_zero. Qed.

(** X3: [shift_min] is idempotent: the minimum of what it returns is 0, so
    a second pass subtracts 0 and returns the grid of the first pass; where
    the first pass raises (a grid without elements), so does the
    composition. *)
Theorem shift_min_is_idempotent (g : ndarray) :
  (g' ← shift_min g; shift_min g') = shift_min g.
Proof.
  destruct (shift_min g) as [g'|e] eqn:H; [|done].
  cbn [mbind result_bind]. unfold shift_min in H.
  destruct (min g) as [m|e] eqn:Hm; [|discriminate].
  cbn [mbind result_bind] in H. injection H as <-.
  unfold shift_min. rewrite (min_ssub2_min g m Hm). cbn [mbind result_bind].
  by rewrite ssub2_zero.
Qed.

End more_shifts.

(** * Further properties of the drift routines *)

Section more_drift.
Import np data_analysis.

Lemma for_rows_app ys1 ys2 body (hv : ndarray) :
  for_rows (ys1 ++ ys2) body hv = (hv' ← for_rows ys1 body hv; for_rows ys2 body hv').
Proof.
  revert hv. induction ys1 as [|y ys1 IH]; intros hv; [done|].
  cbn [app for_rows]. destruct (body y hv) as [hv'|e]; [|done].
  cbn [mbind result_bind]. apply IH.
Qed.

Lemma mean_drift_body (y : nat) (hv : ndarray) row :
  hv !! y = Some row -> True ->
  (row ← getrow hv y; let mean_height := mean row in setrow hv y (ssub row mean_height))
  = Ok (<[y := mean_residual row]> hv).
Proof.
  intros Hrow _. rewrite (getrow_lookup _ _ _ Hrow). cbn [mbind result_bind].
  apply (setrow_lookup _ _ _ _ Hrow), length_ssub.
Qed.

(** X4: with at least as many rows as columns, [mean_drift_subtraction]
    returns a grid of as many rows in which each of the first [ny] rows (ny
    the number of columns) is the input row minus its mean, and every later
    row is the input row. *)
Theorem mean_drift_subtraction_visits_ny_rows (g : ndarray) :
  ((shape g).2 <= length g)%nat ->
  exists g',
    mean_drift_subtraction g = Ok g'
    /\ length g' = length g
    /\ (forall i row, (i < (shape g).2)%nat -> g !! i = Some row ->
          g' !! i = Some (ssub row (mean row)))
    /\ (forall i, ((shape g).2 <= i)%nat -> g' !! i = g !! i).
Proof.
  intros Hny. rewrite mean_drift_subtraction_rows by done.
  eexists. split; [reflexivity|].
  assert (length (map mean_residual (take (shape g).2 g)) = (shape g).2) as Hlen
    by (rewrite length_map; by apply length_take_le).
  split; [|split].
  - rewrite length_app, Hlen, length_drop. lia.
  - intros i row Hi Hrow. rewrite lookup_app_l by lia.
    rewrite list_lookup_fmap, lookup_take_lt, Hrow by done. reflexivity.
  - intros i Hi. rewrite lookup_app_r by lia. rewrite Hlen, lookup_drop.
    f_equal. lia.
Qed.

Lemma mean_drift_subtraction_visits_ny_rows_witness :
  exists g',
    mean_drift_subtraction (of_Z [[1; 2]; [3; 4]; [5; 7]]%Z) = Ok g'
    /\ length g' = length (of_Z [[1; 2]; [3; 4]; [5; 7]]%Z)
    /\ (forall i row, (i < (shape (of_Z [[1; 2]; [3; 4]; [5; 7]]%Z)).2)%nat ->
          of_Z [[1; 2]; [3; 4]; [5; 7]]%Z !! i = Some row ->
          g' !! i = Some (ssub row (mean row)))
    /\ (forall i, ((shape (of_Z [[1; 2]; [3; 4]; [5; 7]]%Z)).2 <= i)%nat ->
          g' !! i = of_Z [[1; 2]; [3; 4]; [5; 7]]%Z !! i).
Proof.
  apply (mean_drift_subtraction_visits_ny_rows (of_Z [[1; 2]; [3; 4]; [5; 7]]%Z)).
  cbn. lia.
Defined.

(** X5: with more columns than rows, [mean_drift_subtraction] raises
    [IndexError]: the loop index, which counts the columns, runs past the
    last row. *)
Theorem mean_drift_subtraction_index_error (g : ndarray) :
  (length g < (shape g).2)%nat ->
  mean_drift_subtraction g = Raise IndexError.
Proof.
  intros Hny. unfold mean_drift_subtraction.
  destruct (shape g) as [nx ny] eqn:Hs. cbn [snd] in Hny.
  replace ny with (length g + (ny - length g))%nat by lia.
  rewrite seq_app, for_rows_app.
  pose proof (for_rows_map _ mean_residual (fun _ => True) g mean_drift_body
                (Forall_true _ _ (fun _ => I)) (length g) 0 (Nat.le_refl _)) as H.
  rewrite take_0, drop_0 in H. cbn [map app Nat.add] in H. rewrite H.
  rewrite take_ge, drop_ge, app_nil_r by done. cbn [mbind result_bind Nat.add].
  destruct (ny - length g)%nat as [|k] eqn:Hk; [lia|].
  cbn [seq for_rows]. unfold getrow.
  rewrite (lookup_ge_None_2 (map mean_residual g)) by (by rewrite length_map).
  reflexivity.
Qed.

Lemma mean_drift_subtraction_index_error_witness :
  mean_drift_subtraction (of_Z [[0; 1; 5]; [2; 0; 1]]%Z) = Raise IndexError.
Proof.
  apply (mean_drift_subtraction_index_error (of_Z [[0; 1; 5]; [2; 0; 1]]%Z)).
  cbn. lia.
Defined.

(** X7: on a grid whose rows are not empty and whose two dimensions differ,
    [line_drift_subtraction] raises [LinAlgError] at the first row: the
    design matrix has as many rows as the grid, the fitted row has as many
    samples as the grid has columns. *)
Theorem line_drift_subtraction_incompatible_dimensions (g : ndarray) :
  (shape g).2 <> 0%nat -> (shape g).1 <> (shape g).2 ->
  line_drift_subtraction g = Raise LinAlgError.
Proof.
  unfold line_drift_subtraction, shape. cbn [fst snd]. intros Hny Hne.
  destruct g as [|r g]; [done|]. cbn [hd] in *.
  destruct (length r) as [|k] eqn:Hr; [done|].
  cbn [seq for_rows]. unfold getrow. cbn [lookup list_lookup mbind result_bind].
  unfold lstsq. rewrite length_transpose_vstack, length_arange, Hr.
  rewrite decide_False by done. reflexivity.
Qed.

Lemma line_drift_subtraction_incompatible_dimensions_witness :
  line_drift_subtraction (of_Z [[0; 1; 5]; [2; 0; 1]]%Z) = Raise LinAlgError.
Proof.
  apply (line_drift_subtraction_incompatible_dimensions (of_Z [[0; 1; 5]; [2; 0; 1]]%Z));
    cbn; lia.
Defined.

End more_drift.

(** * The row fit is a least-squares fit *)

Section more_line.
Import np data_analysis.



End more_line.

(** * Further properties of the plane subtraction *)

Section more_plane.
Import np data_analysis.





Lemma faddeev_lengths fuel (m n : ndarray) k :
  length n = length m ->
  Forall (fun cn : Qc * ndarray => length cn.2 = length m) (faddeev m n k fuel).
Proof.
  revert n k. induction fuel as [|fuel IH]; intros n k Hn; [constructor|].
  cbn [faddeev]. constructor; [done|]. apply IH.
  unfold add2, mat_mul, smul2, identity.
  rewrite length_zip_with_l_eq; rewrite !length_map; [done|].
  by rewrite length_seq.
Qed.

(** The solver returns as many coefficients as the Gram matrix has rows. *)
Lemma length_pinv_apply (m : ndarray) (v : vec) : length (pinv_apply m v) = length m.
Proof.
  unfold pinv_apply.
  destruct (find _ _) as [[c n]|] eqn:Hf; [|by rewrite length_replicate].
  apply find_some in Hf as [Hin _].
  apply list_elem_of_In in Hin. rewrite elem_of_reverse in Hin.
  pose proof (faddeev_lengths (length m) m (identity (length m)) 1) as Hall.
  rewrite Forall_forall in Hall.
  unfold mat_vec. rewrite !length_map.
  apply (Hall ltac:(unfold identity; by rewrite length_map, length_seq) (c, n) Hin).
Qed.

Lemma has_shape_meshgrid_general (x y : vec) :
  has_shape (length y) (length x) (meshgrid x y).1
  /\ has_shape (length y) (length x) (meshgrid x y).2.
Proof.
  unfold meshgrid, has_shape. cbn [fst snd]. rewrite !length_map.
  repeat split; try done.
  - apply Forall_fmap, Forall_true. by intros ?.
  - apply Forall_fmap, Forall_true. intros ?. unfold compose. by rewrite length_map.
Qed.

Lemma length_ravel_has_shape r c (a : ndarray) :
  has_shape r c a -> length (ravel a) = (r * c)%nat.
Proof.
  intros [Hl Hr]. unfold ravel. rewrite <- Hl. clear Hl.
  induction Hr as [|row a Hrow _ IH]; [done|].
  cbn [concat length]. rewrite length_app, IH, Hrow. lia.
Qed.

Lemma shape_has_shape r c (a : ndarray) : has_shape r c a -> r <> 0%nat -> shape a = (r, c).
Proof.
  intros [Hl Hr] Hr0. unfold shape. rewrite Hl. f_equal.
  destruct a as [|row a]; [by subst|]. cbn. by inversion Hr.
Qed.

(** On a grid with rows and columns the fit returns three coefficients, and
    the routine then subtracts an array of the transposed shape. *)
Lemma common_plane_subtraction_general nx ny (g : ndarray) :
  has_shape nx ny g -> nx <> 0%nat -> ny <> 0%nat ->
  exists p, has_shape ny nx p /\ common_plane_subtraction g = sub2 g p.
Proof.
  intros Hg Hnx Hny. unfold common_plane_subtraction.
  rewrite (shape_has_shape nx ny g Hg Hnx).
  destruct (has_shape_meshgrid_general (arange nx) (arange ny)) as [HX HY].
  rewrite !length_arange in HX, HY.
  destruct (meshgrid (arange nx) (arange ny)) as [X Y] eqn:Hm. cbn [fst snd] in HX, HY.
  assert (length (ravel X) = (ny * nx)%nat) as HlX by (by apply length_ravel_has_shape).
  assert (length (ravel g) = (nx * ny)%nat) as Hlz by (by apply length_ravel_has_shape).
  assert (ny * nx <> 0)%nat as Hnn by lia.
  unfold lstsq. rewrite length_transpose_vstack.
  rewrite decide_True by lia. rewrite decide_False by lia.
  cbn [mbind result_bind].
  match goal with |- context [pinv_apply ?m ?v] =>
    pose proof (length_pinv_apply m v) as Hlen; destruct (pinv_apply m v) as [|a [|b [|c [|? ?]]]] eqn:Hp
  end.
  1-3, 5: exfalso; revert Hlen; unfold gram, mat_mul; rewrite length_map;
    unfold transpose at 1; rewrite length_map, length_seq;
    rewrite transpose_3, hd_map_seq by lia; cbn; lia.
  exists (sadd2 (add2 (smul2 a X) (smul2 b Y)) c). split; [|done].
  unfold sadd2, sadd, add2, smul2, smul.
  apply has_shape_map, has_shape_zip_with; by apply has_shape_map.
Qed.

(** X12: on a grid with at least two rows and two columns whose dimensions
    differ, [common_plane_subtraction] raises [ValueError]: the fitted plane
    is laid out with the transposed shape and cannot be subtracted. *)
Theorem common_plane_subtraction_value_error nx ny (g : ndarray) :
  has_shape nx ny g -> (2 <= nx)%nat -> (2 <= ny)%nat -> nx <> ny ->
  common_plane_subtraction g = Raise ValueError.
Proof.
  intros Hg Hnx Hny Hne.
  destruct (common_plane_subtraction_general nx ny g Hg) as (p & Hp & ->); [lia..|].
  unfold sub2. rewrite (shape_has_shape nx ny g Hg), (shape_has_shape ny nx p Hp) by lia.
  cbn [fst snd]. unfold bdim. by rewrite !decide_False by lia.
Qed.

Lemma common_plane_subtraction_value_error_witness :
  common_plane_subtraction (of_Z [[0; 1; 5]; [2; 0; 1]]%Z) = Raise ValueError.
Proof.
  apply (common_plane_subtraction_value_error 2 3 (of_Z [[0; 1; 5]; [2; 0; 1]]%Z)).
  - split; [reflexivity|]. repeat constructor.
  - lia.
  - lia.
  - lia.
Defined.

(** X13: on a single row or a single column of [n >= 2] samples,
    [common_plane_subtraction] returns a grid with [n] rows and [n] columns:
    the input is stretched against the transposed plane. *)
Theorem common_plane_subtraction_stretches_single_lines n (g : ndarray) :
  has_shape 1 n g \/ has_shape n 1 g -> (2 <= n)%nat ->
  exists g', common_plane_subtraction g = Ok g' /\ has_shape n n g'.
Proof.
  intros Hg Hn.
  assert (forall r c (a p : ndarray),
            has_shape r c a -> has_shape c r p -> r <> 0%nat -> c <> 0%nat ->
            (r = 1%nat \/ c = 1%nat) -> r <> c ->
            exists g', sub2 a p = Ok g' /\ has_shape (Nat.max r c) (Nat.max r c) g')
    as Hsub.
  { intros r c a p Ha Hp Hr Hc H1 Hrc. unfold sub2.
    rewrite (shape_has_shape r c a Ha), (shape_has_shape c r p Hp) by done.
    cbn [fst snd]. unfold bdim.
    rewrite (decide_False (P := r = c)), (decide_False (P := c = r)) by done.
    destruct H1 as [-> | ->].
    - rewrite decide_True by done. rewrite (decide_False (P := c = 1%nat)) by done.
      rewrite decide_True by done.
      eexists. split; [reflexivity|]. replace (Nat.max 1 c) with c by lia.
      split; [by rewrite length_map, length_seq|].
      apply Forall_fmap, Forall_true. intros i. unfold compose.
      by rewrite length_map, length_seq.
    - rewrite (decide_False (P := r = 1%nat)) by done.
      rewrite !decide_True by done.
      eexists. split; [reflexivity|]. replace (Nat.max r 1) with r by lia.
      split; [by rewrite length_map, length_seq|].
      apply Forall_fmap, Forall_true. intros i. unfold compose.
      by rewrite length_map, length_seq. }
  destruct Hg as [Hg|Hg].
  - destruct (common_plane_subtraction_general 1 n g Hg) as (p & Hp & ->); [lia..|].
    destruct (Hsub 1%nat n g p Hg Hp) as (g' & H & Hs); [lia..|auto|lia|].
    exists g'. split; [done|]. by replace (Nat.max 1 n) with n in Hs by lia.
  - destruct (common_plane_subtraction_general n 1 g Hg) as (p & Hp & ->); [lia..|].
    destruct (Hsub n 1%nat g p Hg Hp) as (g' & H & Hs); [lia..|auto|lia|].
    exists g'. split; [done|]. by replace (Nat.max n 1) with n in Hs by lia.
Qed.

Lemma common_plane_subtraction_stretches_single_lines_witness :
  exists g', common_plane_subtraction (of_Z [[0; 1; 5]]%Z) = Ok g' /\ has_shape 3 3 g'.
Proof.
  apply (common_plane_subtraction_stretches_single_lines 3 (of_Z [[0; 1; 5]]%Z)).
  - left. split; [reflexivity|]. repeat constructor.
  - lia.
Defined.

(** *** What the plane fit does not see *)

End more_plane.

(** * Further properties of the driver script *)

Section more_script.
Import np AFM_image_analyser.

#[local] Arguments data_analysis.common_plane_subtraction : simpl never.
#[local] Arguments data_analysis.line_drift_subtraction : simpl never.
#[local] Arguments data_analysis.mean_drift_subtraction : simpl never.
#[local] Arguments data_analysis.shift_min : simpl never.
#[local] Arguments data_analysis.shift_mean : simpl never.

(** Case analysis on what the three settings compare equal to. *)
Ltac settings_cases s :=
  destruct (decide (lower (settings.common_plane_subtraction s) = "yes")) as [?Hy|?Hy];
  destruct (decide (lower (settings.common_plane_subtraction s) = "no")) as [?Hn|?Hn];
  destruct (decide (lower (settings.line_drift_correction s) = "linear")) as [?Hl|?Hl];
  destruct (decide (lower (settings.line_drift_correction s) = "mean")) as [?Hm|?Hm];
  destruct (decide (lower (settings.line_drift_correction s) = "no")) as [?Ho|?Ho];
  destruct (decide (lower (settings.data_shift s) = "minimum")) as [?Hmin|?Hmin];
  destruct (decide (lower (settings.data_shift s) = "mean")) as [?Hmean|?Hmean];
  try congruence.

(** Symbolic run of the script once the comparisons are known. *)
Ltac run_main args :=
  unfold main, script, plane_stage, drift_stage, shift_stage, fallback, render,
    results_stage, mbind, mret, prog_bind, prog_ret;
  repeat match goal with
         | H : lower _ = _ |- _ => rewrite !H
         | H : lower _ <> _ |- _ => apply eqb_false_of_neq in H; rewrite ?H
         end;
  destruct args as [[|? ?]|]; cbn;
  unfold plane, line, mean_drift, shift_min, shift_mean, apply; cbn;
  repeat match goal with
         | |- context [data_analysis.common_plane_subtraction ?g] =>
             destruct (data_analysis.common_plane_subtraction g) eqn:?; cbn
         | |- context [data_analysis.line_drift_subtraction ?g] =>
             destruct (data_analysis.line_drift_subtraction g) eqn:?; cbn
         | |- context [data_analysis.mean_drift_subtraction ?g] =>
             destruct (data_analysis.mean_drift_subtraction g) eqn:?; cbn
         | |- context [data_analysis.shift_min ?g] =>
             destruct (data_analysis.shift_min g) eqn:?; cbn
         | |- context [data_analysis.shift_mean ?g] =>
             destruct (data_analysis.shift_mean g) eqn:?; cbn
         end.

Lemma lower_ascii_lower_ascii c : lower_ascii (lower_ascii c) = lower_ascii c.
Proof.
  destruct c as [[] [] [] [] [] [] [] []]; reflexivity.
Qed.

Lemma lower_lower s : lower (lower s) = lower s.
Proof.
  induction s as [|c s IH]; [done|].
  cbn [lower]. by rewrite lower_ascii_lower_ascii, IH.
Qed.

(** X15: a warning is recorded only in the fallback branch, and then once:
    after any run the live channel and [warning_list] are either both empty
    or hold the one warning each, and the latter only when
    [common_plane_subtraction] is "no" and [line_drift_correction] is
    "linear" or "mean". *)
Theorem warnings_only_in_the_fallback args s hv :
  (warned (main args s hv).1 = [] /\ warning_list (main args s hv).1 = [])
  \/ (warned (main args s hv).1 = [(UserWarning, msg_warning)]
      /\ warning_list (main args s hv).1 = [msg_warning_list]
      /\ lower (settings.common_plane_subtraction s) = "no"
      /\ (lower (settings.line_drift_correction s) = "linear"
          \/ lower (settings.line_drift_correction s) = "mean")).
Proof.
  settings_cases s; run_main args;
    first [ left; split; reflexivity
          | right; repeat split; first [reflexivity | left; reflexivity | right; reflexivity] ].
Qed.

(** X16: in any run [common_plane_subtraction] is called at most once, and
    [mean_drift_subtraction] is called only when [common_plane_subtraction]
    is "yes" and [line_drift_correction] is "mean". *)
Theorem plane_once_and_mean_drift_only_after_plane args s hv :
  (length (filter (fun ev => is_plane_call ev = true) (trace (main args s hv).1)) <= 1)%nat
  /\ (filter (fun ev => is_mean_drift_call ev = true) (trace (main args s hv).1) <> [] ->
      lower (settings.common_plane_subtraction s) = "yes"
      /\ lower (settings.line_drift_correction s) = "mean").
Proof.
  settings_cases s; run_main args;
    (split; [vm_compute; lia | first [ intros _; split; reflexivity | intros H; by destruct H ]]).
Qed.

(** X17: the letter case of the three settings does not matter: the run on
    the settings in lowercase is the run on the settings as given. *)
Theorem main_is_case_insensitive args s hv :
  main args (lowercase_settings s) hv = main args s hv.
Proof.
  unfold main, script, plane_stage, drift_stage, shift_stage, render, lowercase_settings.
  cbn [settings.common_plane_subtraction settings.line_drift_correction
       settings.data_shift settings.output_2D settings.output_3D settings.color_map].
  by rewrite !lower_lower.
Qed.

Lemma shift_min_result n (g g' : ndarray) :
  n <> 0%nat -> square n g -> data_analysis.shift_min g = Ok g' ->
  square n g' /\ min g' = Ok 0.
Proof.
  intros Hn Hsq H. unfold data_analysis.shift_min in H.
  destruct (min g) as [m|e] eqn:Hm; [|discriminate].
  cbn [mbind result_bind] in H. injection H as <-. split.
  - apply (square_map n (fun r => ssub r m)); [|done]. intros r. apply length_ssub.
  - by apply min_ssub2_min.
Qed.

Lemma shift_mean_result n (g g' : ndarray) :
  square n g -> data_analysis.shift_mean g = Ok g' -> square n g'.
Proof.
  intros Hsq H. unfold data_analysis.shift_mean in H. injection H as <-.
  apply (square_map n (fun r => ssub r _)); [|done]. intros r. apply length_ssub.
Qed.

(** What is known of the arrays a run on a square image went through. *)
Ltac follow_square :=
  repeat match goal with
         | Hs : square ?n ?g, H : data_analysis.common_plane_subtraction ?g = _ |- _ =>
             let H' := fresh in
             destruct (corrections_on_square_grids n g Hs) as ((? & H' & ?) & _);
             rewrite H' in H; clear H'; first [discriminate H | injection H as ->]
         | Hs : square ?n ?g, H : data_analysis.line_drift_subtraction ?g = _ |- _ =>
             let H' := fresh in
             destruct (corrections_on_square_grids n g Hs) as (_ & (? & H' & ?) & _);
             rewrite H' in H; clear H'; first [discriminate H | injection H as ->]
         | Hs : square ?n ?g, H : data_analysis.mean_drift_subtraction ?g = _ |- _ =>
             let H' := fresh in
             destruct (corrections_on_square_grids n g Hs) as (_ & _ & (? & H' & ?) & _);
             rewrite H' in H; clear H'; first [discriminate H | injection H as ->]
         | Hs : square ?n ?g, Hn : ?n <> 0%nat, H : data_analysis.shift_min ?g = Raise _ |- _ =>
             let H' := fresh in
             destruct (corrections_on_square_grids n g Hs) as (_ & _ & _ & _ & H');
             destruct (H' Hn) as (? & H'' & _); rewrite H'' in H; discriminate H
         | Hs : square ?n ?g, Hn : ?n <> 0%nat, H : data_analysis.shift_min ?g = Ok _ |- _ =>
             apply (shift_min_result n _ _ Hn Hs) in H; destruct H
         | Hs : square ?n ?g, H : data_analysis.shift_mean ?g = Ok _ |- _ =>
             apply (shift_mean_result n _ _ Hs) in H
         | H : data_analysis.shift_mean _ = Raise _ |- _ => discriminate H
         end.

(** X18: with valid settings and a non-empty square image the run
    completes: its last three events are the 2-D plot, the 3-D plot and the
    closing of the results file, both plots are given the final
    [height_values], nothing is plotted or closed before, and the final grid
    is square of the same size. *)
Theorem valid_settings_run_to_completion args s n hv :
  valid s -> n <> 0%nat -> square n hv ->
  (main args s hv).2 = Ok tt
  /\ trace (main args s hv).1
     = take (length (trace (main args s hv).1) - 3) (trace (main args s hv).1)
       ++ [plot_2d_image (settings.output_2D s) (height_values (main args s hv).1)
             (settings.color_map s);
           plot_3d_image (settings.output_3D s) (height_values (main args s hv).1)
             (settings.color_map s);
           results_close]
  /\ Forall (fun ev => is_output ev = false)
       (take (length (trace (main args s hv).1) - 3) (trace (main args s hv).1))
  /\ square n (height_values (main args s hv).1).
Proof.
  intros (Hp & Hd & Hsh) Hn Hsq.
  destruct Hp as [Hp|Hp], Hd as [Hd|[Hd|Hd]], Hsh as [Hsh|Hsh].
  all: run_main args; follow_square.
  all: split; [reflexivity|split; [reflexivity|split; [repeat constructor|assumption]]].
Qed.

Lemma valid_settings_run_to_completion_witness :
  (main (Some "results.txt") (example_settings "Yes" "Linear" "Minimum")
        (of_Z [[0;2];[4;7]]%Z)).2 = Ok tt
  /\ square 2 (height_values
       (main (Some "results.txt") (example_settings "Yes" "Linear" "Minimum")
             (of_Z [[0;2];[4;7]]%Z)).1).
Proof.
  destruct (valid_settings_run_to_completion (Some "results.txt")
              (example_settings "Yes" "Linear" "Minimum") 2 (of_Z [[0;2];[4;7]]%Z))
    as (Hr & _ & _ & Hs).
  - repeat split; left; reflexivity.
  - discriminate.
  - split; [reflexivity | repeat constructor].
  - split; [exact Hr | exact Hs].
Defined.

(** X19: with valid settings, [data_shift] minimum and a non-empty square
    image, the grid given to the plots has minimum exactly 0. *)
Theorem plotted_grid_has_minimum_zero args s n hv :
  valid s -> lower (settings.data_shift s) = "minimum" ->
  n <> 0%nat -> square n hv ->
  min (height_values (main args s hv).1) = Ok 0.
Proof.
  intros (Hp & Hd & _) Hsh Hn Hsq.
  destruct Hp as [Hp|Hp], Hd as [Hd|[Hd|Hd]].
  all: run_main args; follow_square; assumption.
Qed.

Lemma plotted_grid_has_minimum_zero_witness :
  min (height_values
         (main None (example_settings "No" "MEAN" "Minimum") (of_Z [[0;2];[4;7]]%Z)).1)
  = Ok 0.
Proof.
  apply (plotted_grid_has_minimum_zero None (example_settings "No" "MEAN" "Minimum") 2
           (of_Z [[0;2];[4;7]]%Z)).
  - split; [right; reflexivity | split; [right; left; reflexivity | left; reflexivity]].
  - reflexivity.
  - discriminate.
  - split; [reflexivity | repeat constructor].
Defined.

End more_script.
